(** * StreamFramework: the composition contract and its three realizations

    A shallow embedding of [core/either.py], [core/io_monad.py],
    [core/stream.py] and, of [core/http_stream.py], the requests, the
    streams of requests and their parallel execution.

    Python code runs in a world it can change and may raise instead of
    returning.  Both are explicit here: a computation of type [Py W A]
    takes the current world and gives back an outcome (a value or a raised
    exception) with the new world.  Every user callback (the [f] of a
    [map] or [bind], a predicate, the closure of an [IO]) is such a
    computation.  What is raised is any object Python can raise, with
    its class and the classes that one derives from: the [except
    Exception] clauses of the sources catch the instances of [Exception]
    and let the others ([SystemExit], [KeyboardInterrupt],
    [GeneratorExit]) through, and iterators and generators give the
    instances of [StopIteration] a meaning of their own. *)

From stdpp Require Import base gmap strings list.
From Stdlib Require Import ZArith Lia.

#[local] Set Warnings "-clear-no-such-hyp".

Open Scope Z_scope.

(* ===================================================================== *)
(** * Part I: definitions                                                 *)
(* ===================================================================== *)

(** ** Computations: state passing with exceptions *)

Module Py.

(** An object that can be raised, an instance of [BaseException]: its
    class, the classes its class derives from, and its message.  The
    sources annotate it as [Exception]. *)
Record Exception : Type := mkRaised {
  exc_class : string;
  exc_bases : list string;
  exc_msg : string
}.

#[global] Instance Exception_eq_dec : EqDecision Exception.
Proof. solve_decision. Defined.

(** An instance of a class that derives from [Exception] directly. *)
Definition mkException (cls msg : string) : Exception :=
  mkRaised cls ["Exception"; "BaseException"] msg.

(** [isinstance(e, cls)] *)
Definition isinstance (e : Exception) (cls : string) : bool :=
  existsb (String.eqb cls) (exc_class e :: exc_bases e).

Inductive outcome (A : Type) : Type :=
| Ret (a : A)
| Raise (e : Exception).
Arguments Ret {A} a.
Arguments Raise {A} e.

Definition Py (W A : Type) : Type := W -> outcome A * W.

Section Ops.
Context {W : Type}.

Definition ret {A} (a : A) : Py W A := fun w => (Ret a, w).

Definition raise {A} (e : Exception) : Py W A := fun w => (Raise e, w).

Definition bind {A B} (m : Py W A) (k : A -> Py W B) : Py W B :=
  fun w =>
    match m w with
    | (Ret a, w') => k a w'
    | (Raise e, w') => (Raise e, w')
    end.

(** [try: m except Exception as e: h e]: the clause catches the
    instances of [Exception], anything else that is raised goes on to
    the caller. *)
Definition try_except {A} (m : Py W A) (h : Exception -> Py W A) : Py W A :=
  fun w =>
    match m w with
    | (Ret a, w') => (Ret a, w')
    | (Raise e, w') =>
        if isinstance e "Exception" then h e w' else (Raise e, w')
    end.

(** Code that runs in the body of a generator: a [StopIteration] that
    leaves the body is replaced by a [RuntimeError] (PEP 479). *)
Definition RuntimeError_generator : Exception :=
  mkException "RuntimeError" "generator raised StopIteration".

Definition raised_in_generator (e : Exception) : Exception :=
  if isinstance e "StopIteration" then RuntimeError_generator else e.

Definition generator_body {A} (m : Py W A) : Py W A :=
  fun w =>
    match m w with
    | (Ret a, w') => (Ret a, w')
    | (Raise e, w') => (Raise (raised_in_generator e), w')
    end.

(** [raise obj] where [obj] may be [None]: raising something that is
    not an exception is itself a [TypeError]. *)
Definition TypeError_not_exception : Exception :=
  mkException "TypeError" "exceptions must derive from BaseException".

Definition raise_object {A} (obj : option Exception) : Py W A :=
  match obj with
  | Some e => raise e
  | None => raise TypeError_not_exception
  end.

(** [[f(x) for x in xs]]: the calls happen in list order and the first
    exception ends the comprehension. *)
Fixpoint for_list {A B} (f : A -> Py W B) (xs : list A) : Py W (list B) :=
  match xs with
  | [] => ret []
  | x :: xs' =>
      bind (f x) (fun y => bind (for_list f xs') (fun ys => ret (y :: ys)))
  end.
End Ops.

(** [range(n)] with one argument. *)
Definition range (n : Z) : list Z := Z.of_nat <$> seq 0 (Z.to_nat n).

(** A callback that changes the world but never raises. *)
Definition total {W A B} (f : A -> W -> B * W) : A -> Py W B :=
  fun a w => let '(b, w') := f a w in (Ret b, w').

(** Instrumentation: the world is paired with the list of arguments a
    callback has been invoked with so far. *)
Definition logged {W A B} (f : A -> Py W B) : A -> Py (W * list A) B :=
  fun a '(w, log) => let '(r, w') := f a w in (r, (w', log ++ [a])).

(** The same for a closure without arguments: a call counter. *)
Definition counted {W A} (m : Py W A) : Py (W * nat) A :=
  fun '(w, n) => let '(r, w') := m w in (r, (w', S n)).

(** [n] invocations of a closure one after the other, whatever their
    outcomes: the outcomes in order and the final world. *)
Fixpoint invocations {W A} (m : Py W A) (n : nat) (w : W) : list (outcome A) * W :=
  match n with
  | O => ([], w)
  | S n' =>
      let '(r, w') := m w in
      let '(rs, w'') := invocations m n' w' in
      (r :: rs, w'')
  end.

End Py.

Import Py.

Declare Scope py_scope.
Delimit Scope py_scope with py.
Notation "x <~ m ; k" := (Py.bind m (fun x => k))
  (at level 20, m at level 100, k at level 200) : py_scope.
Open Scope py_scope.

(** ** core/either.py *)

Module Either.

(** [Either(value, is_right)]: the tag decides how [_value] is read. *)
Inductive Either (E A : Type) : Type :=
| Left (error : E)
| Right (value : A).
Arguments Left {E A} error.
Arguments Right {E A} value.

(** [map] and [recover] store a caught exception in the left slot, which
    the source types as [E]: the error type must be able to hold one. *)
Class HoldsException (E : Type) := of_exception : Exception -> E.
#[global] Instance Exception_holds : HoldsException Exception := fun e => e.

Definition is_right {E A} (self : Either E A) : bool :=
  match self with Right _ => true | Left _ => false end.

Definition is_left {E A} (self : Either E A) : bool := negb (is_right self).

Definition pure {E A} (value : A) : Either E A := Right value.
Definition left {E A} (error : E) : Either E A := Left error.
Definition right {E A} (value : A) : Either E A := Right value.

Section Ops.
Context {W E : Type}.

Definition bind {A B} (self : Either E A) (f : A -> Py W (Either E B))
  : Py W (Either E B) :=
  match self with
  | Right v => f v
  | Left e => ret (Left e)
  end.

Definition map `{HoldsException E} {A B} (self : Either E A) (f : A -> Py W B)
  : Py W (Either E B) :=
  match self with
  | Right v =>
      try_except (b <~ f v; ret (Right b))
                 (fun e => ret (Left (of_exception e)))
  | Left e => ret (Left e)
  end.

Definition get_or_else {A} (self : Either E A) (default : A) : A :=
  match self with Right v => v | Left _ => default end.

Definition or_else {A} (self alternative : Either E A) : Either E A :=
  match self with Right _ => self | Left _ => alternative end.

Definition recover `{HoldsException E} {A} (self : Either E A) (f : E -> Py W A)
  : Py W (Either E A) :=
  match self with
  | Left e =>
      try_except (a <~ f e; ret (Right a))
                 (fun x => ret (Left (of_exception x)))
  | Right _ => ret self
  end.

(** [Monad.__rshift__] of core/monad.py, inherited by [Either]:
    [self >> other] is [self.bind(lambda _: other)]. *)
Definition rshift {A B} (self : Either E A) (other : Either E B)
  : Py W (Either E B) :=
  bind self (fun _ => ret other).
End Ops.

End Either.

(** ** core/io_monad.py *)

Module IO.
Import Either.

Record IO (W A : Type) : Type := mkIO { effect : Py W A }.
Arguments mkIO {W A} effect.
Arguments effect {W A} _.

Section Ops.
Context {W : Type}.

Definition run {A} (self : IO W A) : Py W A := effect self.

Definition map {A B} (self : IO W A) (f : A -> Py W B) : IO W B :=
  mkIO (result <~ effect self; f result).

Definition bind {A B} (self : IO W A) (f : A -> Py W (IO W B)) : IO W B :=
  mkIO (result <~ effect self; next_io <~ f result; run next_io).

Definition pure {A} (value : A) : IO W A := mkIO (ret value).

Definition attempt {A} (self : IO W A) : IO W (Either Exception A) :=
  mkIO (try_except (result <~ effect self; ret (right result))
                   (fun e => ret (left e))).

Definition recover {A} (self : IO W A) (handler : Exception -> Py W A) : IO W A :=
  mkIO (try_except (effect self) handler).

(** The [for attempt in range(max_attempts)] loop of [retry], over the
    attempt numbers still to come. *)
Fixpoint retry_loop {A} (self : IO W A) (max_attempts : Z)
    (attempts : list Z) (last_exception : option Exception) : Py W A :=
  match attempts with
  | [] => raise_object last_exception
  | attempt :: rest =>
      fun w =>
        match effect self w with
        | (Ret v, w') => (Ret v, w')
        | (Raise e, w') =>
            if isinstance e "Exception" then
              if attempt =? max_attempts - 1
              then (Raise e, w')
              else retry_loop self max_attempts rest (Some e) w'
            else (Raise e, w')
        end
  end.

Definition retry {A} (self : IO W A) (max_attempts : Z) : IO W A :=
  mkIO (retry_loop self max_attempts (range max_attempts) None).

Definition sequence {A} (io_list : list (IO W A)) : IO W (list A) :=
  mkIO (for_list run io_list).

Definition unsafe_run {A} (self : IO W A) : Py W A := run self.

Definition flat_map {A B} (self : IO W A) (f : A -> Py W (IO W B)) : IO W B :=
  bind self f.

(** [IO.sequence([f(item) for item in items])]: the calls of [f] are made
    when [traverse] is called, the effects they return are run later. *)
Definition traverse {A B} (items : list A) (f : A -> Py W (IO W B))
  : Py W (IO W (list B)) :=
  io_list <~ for_list f items; ret (sequence io_list).

(** [Monad.__rshift__] of core/monad.py, inherited by [IO]. *)
Definition rshift {A B} (self : IO W A) (other : IO W B) : IO W B :=
  bind self (fun _ => ret other).
End Ops.

End IO.

(** ** core/stream.py *)

Module Stream.
Import Either.

(** [sys.maxsize] of a 64-bit build, and the two errors of
    [itertools.islice(it, stop)]: a [stop] that does not fit a machine
    index, or is [-1], is refused under the first message, any other
    negative one under the second. *)
Definition sys_maxsize : Z := 2 ^ 63 - 1.

Definition ValueError_islice : Exception :=
  mkException "ValueError"
    "Stop argument for islice() must be None or an integer: 0 <= x <= sys.maxsize.".

Definition ValueError_islice_indices : Exception :=
  mkException "ValueError"
    "Indices for islice() must be None or an integer: 0 <= x <= sys.maxsize.".

Definition ValueError_range : Exception :=
  mkException "ValueError" "range() arg 3 must not be zero".

(** The elements of [range(start, stop, step)] for a non-zero [step]. *)
Definition range_list (start stop step : Z) : list Z :=
  let len :=
    if (0 <? step) && (start <? stop) then (stop - start + step - 1) / step
    else if (step <? 0) && (stop <? start) then (start - stop - step - 1) / (- step)
    else 0 in
  (fun i => start + Z.of_nat i * step) <$> seq 0 (Z.to_nat len).

Section Iterators.
Context {W : Type}.

(** The iterator objects the streams of this module run on, each with
    the state it keeps between two calls of [next]: the built-in
    iterators ([iter] of a list, [itertools.count], [map], [filter],
    [itertools.islice]) and the frames of the two generator functions
    ([new_source] of [bind] and of [distinct]) at their suspension
    points.  A [Stream] holds the factory [_source]. *)
Inductive Iterator : Type -> Type :=
| list_iterator {A} (rest : list A) : Iterator A
| count (n step : Z) : Iterator Z
| map_object {A B} (f : A -> Py W B) (it : Iterator A) : Iterator B
| filter_object {A} (predicate : A -> Py W bool) (it : Iterator A) : Iterator A
| islice {A} (it : Iterator A) (remaining : nat) : Iterator A
(* bind.new_source: not started; at the head of the outer [for]; inside
   the inner [for], after a [yield] *)
| bind_start {A B} (self : Stream A) (f : A -> Py W (Stream B)) : Iterator B
| bind_outer {A B} (items : Iterator A) (f : A -> Py W (Stream B)) : Iterator B
| bind_inner {A B} (items : Iterator A) (f : A -> Py W (Stream B))
    (sub_items : Iterator B) : Iterator B
(* distinct.new_source: not started; in the loop, with the set [seen] *)
| distinct_start {A} `{Countable A} (self : Stream A) : Iterator A
| distinct_loop {A} `{Countable A} (seen : gset A) (items : Iterator A) : Iterator A
with Stream : Type -> Type :=
| mkStream {A} (source : Py W (Iterator A)) : Stream A.

Definition source {A} (self : Stream A) : Py W (Iterator A) :=
  match self in Stream T return Py W (Iterator T) with
  | mkStream src => src
  end.

(** What one turn of an iterator's innermost loop does: hand out an
    element, go round again without one, or finish ([StopIteration]). *)
Inductive Step (A : Type) : Type :=
| Yield (a : A) (it : Iterator A)
| Skip (it : Iterator A)
| Done.
Arguments Yield {A} a it.
Arguments Skip {A} it.
Arguments Done {A}.

(** A callback called by the [__next__] of a built-in iterator ([map],
    [filter]): a [StopIteration] it raises leaves [__next__] as it is,
    and whoever asked for the next element takes the iterator to be
    finished. *)
Definition in_next {A} (m : Py W (Step A)) : Py W (Step A) :=
  fun w =>
    match m w with
    | (Ret s, w') => (Ret s, w')
    | (Raise e, w') =>
        if isinstance e "StopIteration" then (Ret Done, w') else (Raise e, w')
    end.

Fixpoint step {A} (it : Iterator A) {struct it} : Py W (Step A) :=
  match it in Iterator T return Py W (Step T) with
  | list_iterator rest =>
      match rest with
      | [] => ret Done
      | x :: rest' => ret (Yield x (list_iterator rest'))
      end
  | count n stp => ret (Yield n (count (n + stp) stp))
  | map_object f it' =>
      s <~ step it';
      match s with
      | Yield a it'' => in_next (b <~ f a; ret (Yield b (map_object f it'')))
      | Skip it'' => ret (Skip (map_object f it''))
      | Done => ret Done
      end
  | filter_object predicate it' =>
      s <~ step it';
      match s with
      | Yield a it'' =>
          in_next
            (keep <~ predicate a;
             if keep : bool then ret (Yield a (filter_object predicate it''))
             else ret (Skip (filter_object predicate it'')))
      | Skip it'' => ret (Skip (filter_object predicate it''))
      | Done => ret Done
      end
  | islice it' remaining =>
      match remaining with
      | O => ret Done
      | S remaining' =>
          s <~ step it';
          match s with
          | Yield a it'' => ret (Yield a (islice it'' remaining'))
          | Skip it'' => ret (Skip (islice it'' remaining))
          | Done => ret Done
          end
      end
  | bind_start self f =>
      generator_body (items <~ source self; ret (Skip (bind_outer items f)))
  | bind_outer items f =>
      s <~ step items;
      match s with
      | Yield item items' =>
          generator_body
            (sub <~ f item;
             sub_items <~ source sub;
             ret (Skip (bind_inner items' f sub_items)))
      | Skip items' => ret (Skip (bind_outer items' f))
      | Done => ret Done
      end
  | bind_inner items f sub_items =>
      s <~ step sub_items;
      match s with
      | Yield sub_item sub_items' => ret (Yield sub_item (bind_inner items f sub_items'))
      | Skip sub_items' => ret (Skip (bind_inner items f sub_items'))
      | Done => ret (Skip (bind_outer items f))
      end
  | distinct_start self =>
      generator_body (items <~ source self; ret (Skip (distinct_loop ∅ items)))
  | distinct_loop seen items =>
      s <~ step items;
      match s with
      | Yield item items' =>
          if decide (item ∈ seen) then ret (Skip (distinct_loop seen items'))
          else ret (Yield item (distinct_loop ({[item]} ∪ seen) items'))
      | Skip items' => ret (Skip (distinct_loop seen items'))
      | Done => ret Done
      end
  end.

(** *** Constructors and transformations *)

Definition pure {A} (value : A) : Stream A :=
  mkStream (ret (list_iterator [value])).

(** [of] is reserved in Rocq. *)
Definition of_ {A} (values : list A) : Stream A :=
  mkStream (ret (list_iterator values)).

Definition from_iterable {A} (iterable : list A) : Stream A :=
  mkStream (ret (list_iterator iterable)).

Definition range (start : Z) (stop : option Z) (stp : Z) : Stream Z :=
  match stop with
  | None => mkStream (ret (count start stp))
  | Some stop' =>
      mkStream (if stp =? 0 then raise ValueError_range
                else ret (list_iterator (range_list start stop' stp)))
  end.

Definition map {A B} (self : Stream A) (f : A -> Py W B) : Stream B :=
  mkStream (it <~ source self; ret (map_object f it)).

Definition bind {A B} (self : Stream A) (f : A -> Py W (Stream B)) : Stream B :=
  mkStream (ret (bind_start self f)).

Definition filter {A} (self : Stream A) (predicate : A -> Py W bool) : Stream A :=
  mkStream (it <~ source self; ret (filter_object predicate it)).

Definition take {A} (self : Stream A) (n : Z) : Stream A :=
  mkStream (it <~ source self;
            if (0 <=? n) && (n <=? sys_maxsize) then ret (islice it (Z.to_nat n))
            else if (- sys_maxsize - 1 <=? n) && (n <=? -2)
                 then raise ValueError_islice_indices
                 else raise ValueError_islice).

Definition distinct {A} `{Countable A} (self : Stream A) : Stream A :=
  mkStream (ret (distinct_start self)).

(** *** Terminal operations

    A terminal operation loops for as long as the iterator goes on, so
    it takes a budget of loop turns: [None] says the budget ran out
    before the operation returned or raised. *)

Fixpoint list_of {A} (fuel : nat) (it : Iterator A) (w : W)
  : option (outcome (list A) * W) :=
  match fuel with
  | O => None
  | S fuel' =>
      match step it w with
      | (Ret (Yield a it'), w') =>
          match list_of fuel' it' w' with
          | Some (Ret l, w'') => Some (Ret (a :: l), w'')
          | Some (Raise e, w'') => Some (Raise e, w'')
          | None => None
          end
      | (Ret (Skip it'), w') => list_of fuel' it' w'
      | (Ret Done, w') => Some (Ret [], w')
      | (Raise e, w') => Some (Raise e, w')
      end
  end.

Definition to_list {A} (fuel : nat) (self : Stream A) (w : W)
  : option (outcome (list A) * W) :=
  match source self w with
  | (Ret it, w') => list_of fuel it w'
  | (Raise e, w') => Some (Raise e, w')
  end.

(** [m().to_list()] for a call [m()] that makes the stream. *)
Definition then_to_list {A} (fuel : nat) (m : Py W (Stream A)) (w : W)
  : option (outcome (list A) * W) :=
  match m w with
  | (Ret s, w') => to_list fuel s w'
  | (Raise e, w') => Some (Raise e, w')
  end.

Definition no_element_found : string := "No element found".

Fixpoint find_loop {A} (fuel : nat) (it : Iterator A)
    (predicate : A -> Py W bool) (w : W)
  : option (outcome (Either string A) * W) :=
  match fuel with
  | O => None
  | S fuel' =>
      match step it w with
      | (Ret (Yield item it'), w') =>
          match predicate item w' with
          | (Ret true, w'') => Some (Ret (right item), w'')
          | (Ret false, w'') => find_loop fuel' it' predicate w''
          | (Raise e, w'') => Some (Raise e, w'')
          end
      | (Ret (Skip it'), w') => find_loop fuel' it' predicate w'
      | (Ret Done, w') => Some (Ret (left no_element_found), w')
      | (Raise e, w') => Some (Raise e, w')
      end
  end.

Definition find {A} (fuel : nat) (self : Stream A)
    (predicate : A -> Py W bool) (w : W)
  : option (outcome (Either string A) * W) :=
  match source self w with
  | (Ret it, w') => find_loop fuel it predicate w'
  | (Raise e, w') => Some (Raise e, w')
  end.

(** *** The other methods that run on these iterators *)

Definition flat_map {A B} (self : Stream A) (f : A -> Py W (Stream B)) : Stream B :=
  bind self f.

(** [flatten] on a stream of lists.  Its generator is the one of [bind]
    with the element itself in the place of [f(item)]: the inner [for]
    asks the list for its iterator. *)
Definition flatten {B} (self : Stream (list B)) : Stream B :=
  mkStream (ret (bind_start self (fun items => ret (from_iterable items)))).

(** [Monad.__rshift__] of core/monad.py, inherited by [Stream]. *)
Definition rshift {A B} (self : Stream A) (other : Stream B) : Stream B :=
  bind self (fun _ => ret other).

Fixpoint reduce_loop {A B} (fuel : nat) (it : Iterator A)
    (f : B -> A -> Py W B) (result : B) (w : W) : option (outcome B * W) :=
  match fuel with
  | O => None
  | S fuel' =>
      match step it w with
      | (Ret (Yield item it'), w') =>
          match f result item w' with
          | (Ret result', w'') => reduce_loop fuel' it' f result' w''
          | (Raise e, w'') => Some (Raise e, w'')
          end
      | (Ret (Skip it'), w') => reduce_loop fuel' it' f result w'
      | (Ret Done, w') => Some (Ret result, w')
      | (Raise e, w') => Some (Raise e, w')
      end
  end.

Definition reduce {A B} (fuel : nat) (self : Stream A)
    (f : B -> A -> Py W B) (initial : B) (w : W) : option (outcome B * W) :=
  match source self w with
  | (Ret it, w') => reduce_loop fuel it f initial w'
  | (Raise e, w') => Some (Raise e, w')
  end.

Definition fold_left {A B} (fuel : nat) (self : Stream A)
    (f : B -> A -> Py W B) (initial : B) (w : W) : option (outcome B * W) :=
  reduce fuel self f initial w.

(** [sum(1 for _ in self._source())] *)
Fixpoint count_loop {A} (fuel : nat) (it : Iterator A) (total : Z) (w : W)
  : option (outcome Z * W) :=
  match fuel with
  | O => None
  | S fuel' =>
      match step it w with
      | (Ret (Yield _ it'), w') => count_loop fuel' it' (total + 1) w'
      | (Ret (Skip it'), w') => count_loop fuel' it' total w'
      | (Ret Done, w') => Some (Ret total, w')
      | (Raise e, w') => Some (Raise e, w')
      end
  end.

(** The method [count]; the plain name is taken by the iterator of
    [itertools.count]. *)
Definition count_ {A} (fuel : nat) (self : Stream A) (w : W)
  : option (outcome Z * W) :=
  match source self w with
  | (Ret it, w') => count_loop fuel it 0 w'
  | (Raise e, w') => Some (Raise e, w')
  end.

Fixpoint for_each_loop {A B} (fuel : nat) (it : Iterator A)
    (f : A -> Py W B) (w : W) : option (outcome unit * W) :=
  match fuel with
  | O => None
  | S fuel' =>
      match step it w with
      | (Ret (Yield item it'), w') =>
          match f item w' with
          | (Ret _, w'') => for_each_loop fuel' it' f w''
          | (Raise e, w'') => Some (Raise e, w'')
          end
      | (Ret (Skip it'), w') => for_each_loop fuel' it' f w'
      | (Ret Done, w') => Some (Ret tt, w')
      | (Raise e, w') => Some (Raise e, w')
      end
  end.

Definition for_each {A B} (fuel : nat) (self : Stream A)
    (f : A -> Py W B) (w : W) : option (outcome unit * W) :=
  match source self w with
  | (Ret it, w') => for_each_loop fuel it f w'
  | (Raise e, w') => Some (Raise e, w')
  end.

(** [any(predicate(item) for item in self._source())]: stops at the
    first element the predicate accepts.  The predicate is called in the
    body of the generator expression; the source is called before, to
    make it. *)
Fixpoint exists_loop {A} (fuel : nat) (it : Iterator A)
    (predicate : A -> Py W bool) (w : W) : option (outcome bool * W) :=
  match fuel with
  | O => None
  | S fuel' =>
      match step it w with
      | (Ret (Yield item it'), w') =>
          match generator_body (predicate item) w' with
          | (Ret true, w'') => Some (Ret true, w'')
          | (Ret false, w'') => exists_loop fuel' it' predicate w''
          | (Raise e, w'') => Some (Raise e, w'')
          end
      | (Ret (Skip it'), w') => exists_loop fuel' it' predicate w'
      | (Ret Done, w') => Some (Ret false, w')
      | (Raise e, w') => Some (Raise e, w')
      end
  end.

(** [exists] is reserved in Rocq. *)
Definition exists_ {A} (fuel : nat) (self : Stream A)
    (predicate : A -> Py W bool) (w : W) : option (outcome bool * W) :=
  match source self w with
  | (Ret it, w') => exists_loop fuel it predicate w'
  | (Raise e, w') => Some (Raise e, w')
  end.

(** [all(predicate(item) for item in self._source())]: stops at the
    first element the predicate refuses. *)
Fixpoint all_loop {A} (fuel : nat) (it : Iterator A)
    (predicate : A -> Py W bool) (w : W) : option (outcome bool * W) :=
  match fuel with
  | O => None
  | S fuel' =>
      match step it w with
      | (Ret (Yield item it'), w') =>
          match generator_body (predicate item) w' with
          | (Ret true, w'') => all_loop fuel' it' predicate w''
          | (Ret false, w'') => Some (Ret false, w'')
          | (Raise e, w'') => Some (Raise e, w'')
          end
      | (Ret (Skip it'), w') => all_loop fuel' it' predicate w'
      | (Ret Done, w') => Some (Ret true, w')
      | (Raise e, w') => Some (Raise e, w')
      end
  end.

Definition all {A} (fuel : nat) (self : Stream A)
    (predicate : A -> Py W bool) (w : W) : option (outcome bool * W) :=
  match source self w with
  | (Ret it, w') => all_loop fuel it predicate w'
  | (Raise e, w') => Some (Raise e, w')
  end.
End Iterators.

Arguments Iterator W A : clear implicits.
Arguments Stream W A : clear implicits.
Arguments Step W A : clear implicits.
Arguments Yield {W A} a it.
Arguments Skip {W A} it.
Arguments Done {W A}.

(** An operation returns [r] when some budget is enough for it. *)
Definition returns {W R} (op : nat -> W -> option (outcome R * W))
    (w : W) (r : outcome R * W) : Prop :=
  exists fuel, op fuel w = Some r.

End Stream.

(** ** core/http_stream.py *)

Module HttpStream.
Import Either.

Inductive HttpMethod : Type := GET | POST | PUT | DELETE | PATCH.

(** [body] is sent as JSON when it is a [dict] or a [list] and as raw
    data otherwise. *)
Inductive Body : Type :=
| JsonBody (content : string)
| DataBody (content : string).

(** [@dataclass class HttpRequest]: the class is not frozen, its fields
    can be assigned after construction. *)
Record HttpRequest : Type := mkHttpRequest {
  url : string;
  method : HttpMethod;
  headers : option (gmap string string);
  params : option (gmap string string);
  body : option Body;
  timeout : Z
}.

(** [HttpRequest(url=url)] with the defaults of the other fields. *)
Definition default_request (url : string) : HttpRequest :=
  mkHttpRequest url GET None None None 30.

(** A request is an object: streams, closures and responses hold
    references to it, and an assignment to one of its fields is seen
    through all of them. *)
Definition ref : Type := nat.

Record HttpResponse : Type := mkHttpResponse {
  status_code : Z;
  response_headers : gmap string string;
  response_body : string;
  request : ref
}.

(** The world of this module: the request objects that exist, and
    whatever else the program can act on (the network), of type [X]. *)
Record World (X : Type) : Type := mkWorld {
  objects : gmap ref HttpRequest;
  outside : X
}.
Arguments mkWorld {X} objects outside.
Arguments objects {X} _.
Arguments outside {X} _.

(** What [requests.get] and its siblings are called with and what they
    return. *)
Record Kwargs : Type := mkKwargs {
  kw_timeout : Z;
  kw_headers : gmap string string;
  kw_params : gmap string string;
  kw_json : option string;
  kw_data : option string
}.

Record RawResponse : Type := mkRawResponse {
  raw_status_code : Z;
  raw_headers : gmap string string;
  raw_text : string
}.

Definition ReferenceError : Exception :=
  mkException "ReferenceError" "no such object".

Section Ops.
Context {X : Type}.

(** The [requests] library, outside of the sources: one function per
    method, acting on the outside world only. *)
Context (transport : HttpMethod -> string -> Kwargs -> Py X RawResponse).

(** Object creation, attribute reads and attribute assignment. *)
Definition new_request (r : HttpRequest) : Py (World X) ref :=
  fun w =>
    let l := fresh (dom (objects w)) in
    (Ret l, mkWorld (<[l := r]> (objects w)) (outside w)).

Definition read_request (l : ref) : Py (World X) HttpRequest :=
  fun w =>
    match objects w !! l with
    | Some r => (Ret r, w)
    | None => (Raise ReferenceError, w)
    end.

Definition set_headers (l : ref) (new_headers : gmap string string)
  : Py (World X) unit :=
  fun w =>
    match objects w !! l with
    | Some r =>
        (Ret tt,
         mkWorld (<[l := mkHttpRequest (url r) (method r) (Some new_headers)
                           (params r) (body r) (timeout r)]> (objects w))
                 (outside w))
    | None => (Raise ReferenceError, w)
    end.

Definition call_outside {A} (m : Py X A) : Py (World X) A :=
  fun w => let '(r, x') := m (outside w) in (r, mkWorld (objects w) x').

Definition http_request (request : ref)
  : IO.IO (World X) (Either Exception HttpResponse) :=
  IO.mkIO
    (try_except
       (r <~ read_request request;
        let kwargs :=
          mkKwargs (timeout r) (default ∅ (headers r)) (default ∅ (params r))
            (match body r with Some (JsonBody c) => Some c | _ => None end)
            (match body r with Some (DataBody c) => Some c | _ => None end) in
        resp <~ call_outside (transport (method r) (url r) kwargs);
        let response :=
          mkHttpResponse (raw_status_code resp) (raw_headers resp)
            (raw_text resp) request in
        ret (right response))
       (fun e => ret (left e))).

Record HttpStream : Type := mkHttpStream {
  requests : Stream.Stream (World X) ref
}.

Definition from_urls (urls : list string) : Py (World X) HttpStream :=
  requests <~ for_list (fun url => new_request (default_request url)) urls;
  ret (mkHttpStream (Stream.from_iterable requests)).

Definition map_request (self : HttpStream) (f : ref -> Py (World X) ref)
  : HttpStream :=
  mkHttpStream (Stream.map (requests self) f).

Definition filter_request (self : HttpStream) (predicate : ref -> Py (World X) bool)
  : HttpStream :=
  mkHttpStream (Stream.filter (requests self) predicate).

Definition with_retry (self : HttpStream) (max_attempts : Z) : HttpStream :=
  let add_retry (request : ref) : Py (World X) ref := ret request in
  map_request self add_retry.

Definition add_headers (headers : gmap string string) (request : ref)
  : Py (World X) ref :=
  r <~ read_request request;
  (* [(request.headers or {}).copy()], then [update(headers)]: on a
     common key the new value wins *)
  let new_headers := headers ∪ default ∅ (HttpStream.headers r) in
  _ <~ set_headers request new_headers;
  ret request.

Definition with_headers (self : HttpStream) (headers : gmap string string)
  : HttpStream :=
  map_request self (add_headers headers).

Definition with_auth (self : HttpStream) (token : string) : HttpStream :=
  with_headers self {[ "Authorization" := "Bearer " +:+ token ]}.

Definition take (self : HttpStream) (n : Z) : HttpStream :=
  mkHttpStream (Stream.take (requests self) n).
End Ops.

Arguments HttpStream X : clear implicits.

(** *** [execute_parallel]

    [ThreadPoolExecutor] and [as_completed] belong to Python's standard
    library, not to the sources.  They are modelled by what the method
    relies on: every submitted call gets a future; at most [max_workers]
    calls are being run at a time, taken from the queue in submission
    order; a call being run can finish at any moment, in any order with
    respect to the others, and its future then holds its outcome, the
    value it returned or whatever it raised; [as_completed] hands out
    finished futures, each one once, until all have been handed out;
    [future.result()] returns the value the future holds or raises what
    it holds, which ends the loop; leaving the [with] block waits for
    the calls still queued or being run.  A call is taken to act on the
    world at the moment it finishes. *)
Section Parallel.
Context {X : Type}.
Context (transport : HttpMethod -> string -> Kwargs -> Py X RawResponse).

Record Pool : Type := mkPool {
  (* submitted calls waiting for a worker: submission number, request *)
  queued : list (nat * ref);
  (* calls a worker is running *)
  active : list (nat * ref);
  (* the futures that are done, with what [future.result()] gives *)
  finished : gmap nat (outcome (Either Exception HttpResponse));
  (* done and not handed out by [as_completed] yet *)
  unyielded : list nat;
  (* handed out by [as_completed], in that order *)
  yielded : list nat;
  (* the list [results] of the method *)
  results : list (Either Exception HttpResponse);
  (* what a [future.result()] has raised out of the loop, if one has *)
  raised : option Exception;
  world : World X
}.

(** The dict comprehension: all requests are submitted, in order. *)
Definition submit_all (requests_list : list ref) (w : World X) : Pool :=
  mkPool (imap (fun i req => (i, req)) requests_list) [] ∅ [] [] [] None w.

Inductive pool_step (max_workers : Z) : Pool -> Pool -> Prop :=
| worker_starts p t q :
    queued p = t :: q ->
    Z.of_nat (length (active p)) < max_workers ->
    pool_step max_workers p
      (mkPool q (active p ++ [t]) (finished p) (unyielded p) (yielded p)
              (results p) (raised p) (world p))
| call_finishes p i req a1 a2 o w' :
    active p = a1 ++ (i, req) :: a2 ->
    IO.run (http_request transport req) (world p) = (o, w') ->
    pool_step max_workers p
      (mkPool (queued p) (a1 ++ a2) (<[i := o]> (finished p))
              (unyielded p ++ [i]) (yielded p) (results p) (raised p) w')
| future_yielded p i u1 u2 r :
    raised p = None ->
    unyielded p = u1 ++ i :: u2 ->
    finished p !! i = Some (Ret r) ->
    (* [results.append(future.result())] *)
    pool_step max_workers p
      (mkPool (queued p) (active p) (finished p) (u1 ++ u2)
              (yielded p ++ [i]) (results p ++ [r]) (raised p) (world p))
| future_raises p i u1 u2 e :
    raised p = None ->
    unyielded p = u1 ++ i :: u2 ->
    finished p !! i = Some (Raise e) ->
    (* [future.result()] raises what the call raised *)
    pool_step max_workers p
      (mkPool (queued p) (active p) (finished p) (u1 ++ u2)
              (yielded p ++ [i]) (results p) (Some e) (world p)).

(** The [with] block is left: no call is queued or being run and, unless
    a [future.result()] has raised, the loop over [as_completed] has
    handed out every future. *)
Definition pool_ended (p : Pool) : Prop :=
  queued p = [] /\ active p = [] /\ (raised p = None -> unyielded p = []).

(** What the effect gives when the pool has ended: the list [results],
    or the error that left the loop. *)
Definition pool_outcome (p : Pool)
  : outcome (list (Either Exception HttpResponse)) * World X :=
  (match raised p with
   | None => Ret (results p)
   | Some e => Raise e
   end, world p).

(** A run of the effect of [execute_parallel(max_workers)] from the
    world [w] that ends in the pool [final]: the method returns or
    raises [pool_outcome final].  [ThreadPoolExecutor] refuses a
    [max_workers] below 1. *)
Definition execute_parallel (self : HttpStream X) (max_workers : Z)
    (fuel : nat) (w : World X) (final : Pool) : Prop :=
  1 <= max_workers /\
  exists (requests_list : list ref) (w1 : World X),
    Stream.to_list fuel (requests self) w = Some (Ret requests_list, w1)
    /\ rtc (pool_step max_workers) (submit_all requests_list w1) final
    /\ pool_ended final.
End Parallel.

Arguments Pool X : clear implicits.

End HttpStream.

(** ** utils/operators.py *)

Module Operators.

Section Ops.
Context {W : Type}.

(** [functools.reduce(function, iterable, initializer)] *)
Fixpoint reduce {A B} (function : B -> A -> Py W B) (iterable : list A)
    (initializer : B) : Py W B :=
  match iterable with
  | [] => ret initializer
  | x :: rest => acc <~ function initializer x; reduce function rest acc
  end.

(** The functions of [compose] and [pipe] are taken of one type, each
    from [A] to [A]. *)
Definition compose {A} (functions : list (A -> Py W A)) : A -> Py W A :=
  fun x => reduce (fun acc f => f acc) (reverse functions) x.

Definition pipe {A} (functions : list (A -> Py W A)) : A -> Py W A :=
  fun x => reduce (fun acc f => f acc) functions x.

End Ops.

End Operators.

(* ===================================================================== *)
(** * Vocabulary of the properties                                        *)
(* ===================================================================== *)

(** The attempt numbers still to come when [k] attempts are behind. *)
Definition attempts_from (k n : nat) : list Z := Z.of_nat <$> seq k n.

(** [n] consecutive integers from [start]. *)
Definition consecutive (start : Z) (n : nat) : list Z :=
  (fun i => start + Z.of_nat i) <$> seq 0 n.

(** The callback that makes [reduce] keep a record of the traversal:
    for every element it meets, in order, the element and what the
    predicate [p] returns on it. *)
Definition observing {W A : Type} (p : A -> Py W bool)
  : list (A * bool) -> A -> Py W (list (A * bool)) :=
  fun seen x => b <~ p x; ret (seen ++ [(x, b)]).

Section FirstOccurrences.
Context {A : Type} `{Countable A}.

(** The first occurrences of the elements of [l], in the order of [l]:
    an element is kept when it occurs neither in [earlier] nor before
    its own position. *)
Fixpoint first_occurrences_from (earlier l : list A) : list A :=
  match l with
  | [] => []
  | x :: l' =>
      if decide (x ∈ earlier)
      then first_occurrences_from (earlier ++ [x]) l'
      else x :: first_occurrences_from (earlier ++ [x]) l'
  end.

Definition first_occurrences (l : list A) : list A := first_occurrences_from [] l.
End FirstOccurrences.

Section PoolInvariant.
Import HttpStream.
Context {X : Type}.
Context (transport : HttpMethod -> string -> Kwargs -> Py X RawResponse).
Context (requests_list : list ref).

(** [o] is the outcome of the call submitted for request number [i],
    and [r] the value that call returned. *)
Definition outcome_of_submission (i : nat)
    (o : outcome (Either.Either Exception HttpResponse)) : Prop :=
  exists (req : ref) (w w' : World X),
    requests_list !! i = Some req
    /\ IO.run (http_request transport req) w = (o, w').

Definition result_of_submission (i : nat)
    (r : Either.Either Exception HttpResponse) : Prop :=
  outcome_of_submission i (Ret r).

(** What holds of the pool all along: every submission number is in
    exactly one of the four stages; the calls not finished yet are the ones
    of their requests; a future that is done holds the outcome of its
    call; as long as no [future.result()] has raised, [results] lists the
    values of the futures handed out; an error that has left the loop is
    what one of the calls raised. *)
Definition pool_inv (p : Pool X) : Prop :=
  (queued p).*1 ++ (active p).*1 ++ unyielded p ++ yielded p
    ≡ₚ seq 0 (length requests_list)
  /\ Forall (fun t => requests_list !! t.1 = Some t.2) (queued p ++ active p)
  /\ Forall (fun i => exists o, finished p !! i = Some o
                                /\ outcome_of_submission i o) (unyielded p)
  /\ (raised p = None ->
      Forall2 (fun i r => finished p !! i = Some (Ret r)
                          /\ result_of_submission i r) (yielded p) (results p))
  /\ (forall e, raised p = Some e ->
      exists i, outcome_of_submission i (Raise e)).

(** Work left: a queued call has three stages to go, a call being run
    two, a finished future one. *)
Definition pool_measure (p : Pool X) : nat :=
  3 * length (queued p) + 2 * length (active p) + length (unyielded p).
End PoolInvariant.

(** ** Sample inputs *)

Definition boom : Exception := mkException "RuntimeError" "boom".

(** Two objects that are raised without being instances of [Exception],
    and a [StopIteration]. *)
Definition KeyboardInterrupt : Exception :=
  mkRaised "KeyboardInterrupt" ["BaseException"] "".

Definition SystemExit : Exception :=
  mkRaised "SystemExit" ["BaseException"] "1".

Definition StopIteration : Exception :=
  mkRaised "StopIteration" ["Exception"; "BaseException"] "".

(** A closure whose world is the number of times it has run: it raises on
    its first [failures] runs and returns [42] afterwards. *)
Definition flaky (failures : nat) : Py nat Z :=
  fun runs =>
    if (runs <? failures)%nat then (Raise boom, S runs) else (Ret 42, S runs).

(** A stream whose source raises [StopIteration] when it is called,
    like [Stream(lambda: next(iter([])))]. *)
Definition stops {W A : Type} : Stream.Stream W A :=
  Stream.mkStream (raise StopIteration).

(** A closure that is interrupted every time it runs. *)
Definition interrupted : Py nat Z :=
  fun runs => (Raise KeyboardInterrupt, S runs).

(** A transport that answers every request with [200 ok], three request
    objects and the stream over them. *)
Definition ok_transport
  : HttpStream.HttpMethod -> string -> HttpStream.Kwargs
    -> Py unit HttpStream.RawResponse :=
  fun _ _ _ => ret (HttpStream.mkRawResponse 200 ∅ "ok").

Definition three_requests_world : HttpStream.World unit :=
  HttpStream.mkWorld
    (list_to_map [(0%nat, HttpStream.default_request "http://a");
                  (1%nat, HttpStream.default_request "http://b");
                  (2%nat, HttpStream.default_request "http://c")]) tt.

Definition three_requests : HttpStream.HttpStream unit :=
  HttpStream.mkHttpStream (Stream.from_iterable [0%nat; 1%nat; 2%nat]).

(** A transport that is interrupted at every request, and the stream
    over the first of the three request objects. *)
Definition interrupted_transport
  : HttpStream.HttpMethod -> string -> HttpStream.Kwargs
    -> Py unit HttpStream.RawResponse :=
  fun _ _ _ => raise KeyboardInterrupt.

Definition one_request : HttpStream.HttpStream unit :=
  HttpStream.mkHttpStream (Stream.from_iterable [0%nat]).

(** What a budgeted operation gives, with its value read through [h]:
    running out of budget, raising and the final world stay as they are. *)
Definition on_result {W R R' : Type} (h : R -> R')
    (r : option (outcome R * W)) : option (outcome R' * W) :=
  match r with
  | Some (Ret v, w) => Some (Ret (h v), w)
  | Some (Raise e, w) => Some (Raise e, w)
  | None => None
  end.

(** [lambda x: f(x).bind(g)], the function of the associativity law. *)
Definition bind_after {W A B C : Type} (f : A -> Py W (Stream.Stream W B))
    (g : B -> Py W (Stream.Stream W C)) : A -> Py W (Stream.Stream W C) :=
  fun x => s <~ f x; ret (Stream.bind s g).

(** A request with [hs] added to its headers, the new value winning on a
    common key, and the keyword arguments a request is sent with. *)
Definition with_added_headers (hs : gmap string string)
    (r : HttpStream.HttpRequest) : HttpStream.HttpRequest :=
  HttpStream.mkHttpRequest (HttpStream.url r) (HttpStream.method r)
    (Some (hs ∪ default ∅ (HttpStream.headers r)))
    (HttpStream.params r) (HttpStream.body r) (HttpStream.timeout r).

Definition request_kwargs (r : HttpStream.HttpRequest) : HttpStream.Kwargs :=
  HttpStream.mkKwargs (HttpStream.timeout r)
    (default ∅ (HttpStream.headers r)) (default ∅ (HttpStream.params r))
    (match HttpStream.body r with
     | Some (HttpStream.JsonBody c) => Some c
     | _ => None
     end)
    (match HttpStream.body r with
     | Some (HttpStream.DataBody c) => Some c
     | _ => None
     end).

(** [Stream.pure] as the function given to [bind], and an [f] that
    computes a list and returns the stream over it. *)
Definition pure_stream {W A : Type} : A -> Py W (Stream.Stream W A) :=
  fun a => ret (Stream.pure a).

Definition stream_of_list {W A B : Type} (h : A -> Py W (list B))
  : A -> Py W (Stream.Stream W B) :=
  fun x => ys <~ h x; ret (Stream.of_ ys).
(** ** The loops, turn by turn *)

Section LoopFacts.
Import Stream.
Context {W : Type}.

(** One turn of the traversal loop of [list]. *)
Lemma list_of_unfold {A} (fuel : nat) (it : Iterator W A) w :
  list_of (S fuel) it w =
    match step it w with
    | (Ret (Yield a it'), w') =>
        match list_of fuel it' w' with
        | Some (Ret l, w'') => Some (Ret (a :: l), w'')
        | Some (Raise e, w'') => Some (Raise e, w'')
        | None => None
        end
    | (Ret (Skip it'), w') => list_of fuel it' w'
    | (Ret Done, w') => Some (Ret [], w')
    | (Raise e, w') => Some (Raise e, w')
    end.
Proof. reflexivity. Qed.

Lemma find_loop_unfold {A} (fuel : nat) (it : Iterator W A) predicate w :
  find_loop (S fuel) it predicate w =
    match step it w with
    | (Ret (Yield item it'), w') =>
        match predicate item w' with
        | (Ret true, w'') => Some (Ret (Either.right item), w'')
        | (Ret false, w'') => find_loop fuel it' predicate w''
        | (Raise e, w'') => Some (Raise e, w'')
        end
    | (Ret (Skip it'), w') => find_loop fuel it' predicate w'
    | (Ret Done, w') => Some (Ret (Either.left no_element_found), w')
    | (Raise e, w') => Some (Raise e, w')
    end.
Proof. reflexivity. Qed.

(** A larger budget does not change what a traversal returns. *)
Lemma list_of_S {A} :
  forall (fuel : nat) (it : Iterator W A) w r,
    list_of fuel it w = Some r -> list_of (S fuel) it w = Some r.
Proof.
  induction fuel as [|fuel IH]; intros it w r Hr; [discriminate|].
  rewrite list_of_unfold in Hr. rewrite list_of_unfold.
  destruct (step it w) as [[[a it'|it'|]|e] w']; try exact Hr.
  - destruct (list_of fuel it' w') as [r'|] eqn:Hit; [|discriminate].
    now rewrite (IH _ _ _ Hit).
  - now apply IH.
Qed.
Lemma list_of_mono {A} (fuel fuel' : nat) (it : Iterator W A) w r :
  (fuel <= fuel')%nat -> list_of fuel it w = Some r -> list_of fuel' it w = Some r.
Proof.
  induction 1 as [|fuel' _ IH]; [trivial|]. intros Hr. now apply list_of_S, IH.
Qed.

Lemma reduce_loop_unfold {A B} (fuel : nat) (it : Iterator W A)
    (f : B -> A -> Py W B) (result : B) w :
  reduce_loop (S fuel) it f result w =
    match step it w with
    | (Ret (Yield item it'), w') =>
        match f result item w' with
        | (Ret result', w'') => reduce_loop fuel it' f result' w''
        | (Raise e, w'') => Some (Raise e, w'')
        end
    | (Ret (Skip it'), w') => reduce_loop fuel it' f result w'
    | (Ret Done, w') => Some (Ret result, w')
    | (Raise e, w') => Some (Raise e, w')
    end.
Proof. reflexivity. Qed.

Lemma count_loop_unfold {A} (fuel : nat) (it : Iterator W A) (total : Z) w :
  count_loop (S fuel) it total w =
    match step it w with
    | (Ret (Yield _ it'), w') => count_loop fuel it' (total + 1) w'
    | (Ret (Skip it'), w') => count_loop fuel it' total w'
    | (Ret Done, w') => Some (Ret total, w')
    | (Raise e, w') => Some (Raise e, w')
    end.
Proof. reflexivity. Qed.

Lemma for_each_loop_unfold {A B} (fuel : nat) (it : Iterator W A)
    (f : A -> Py W B) w :
  for_each_loop (S fuel) it f w =
    match step it w with
    | (Ret (Yield item it'), w') =>
        match f item w' with
        | (Ret _, w'') => for_each_loop fuel it' f w''
        | (Raise e, w'') => Some (Raise e, w'')
        end
    | (Ret (Skip it'), w') => for_each_loop fuel it' f w'
    | (Ret Done, w') => Some (Ret tt, w')
    | (Raise e, w') => Some (Raise e, w')
    end.
Proof. reflexivity. Qed.

Lemma exists_loop_unfold {A} (fuel : nat) (it : Iterator W A) predicate w :
  exists_loop (S fuel) it predicate w =
    match step it w with
    | (Ret (Yield item it'), w') =>
        match generator_body (predicate item) w' with
        | (Ret true, w'') => Some (Ret true, w'')
        | (Ret false, w'') => exists_loop fuel it' predicate w''
        | (Raise e, w'') => Some (Raise e, w'')
        end
    | (Ret (Skip it'), w') => exists_loop fuel it' predicate w'
    | (Ret Done, w') => Some (Ret false, w')
    | (Raise e, w') => Some (Raise e, w')
    end.
Proof. reflexivity. Qed.

Lemma all_loop_unfold {A} (fuel : nat) (it : Iterator W A) predicate w :
  all_loop (S fuel) it predicate w =
    match step it w with
    | (Ret (Yield item it'), w') =>
        match generator_body (predicate item) w' with
        | (Ret true, w'') => all_loop fuel it' predicate w''
        | (Ret false, w'') => Some (Ret false, w'')
        | (Raise e, w'') => Some (Raise e, w'')
        end
    | (Ret (Skip it'), w') => all_loop fuel it' predicate w'
    | (Ret Done, w') => Some (Ret true, w')
    | (Raise e, w') => Some (Raise e, w')
    end.
Proof. reflexivity. Qed.


(** *** One call of [next] on each kind of iterator *)

Lemma step_map_object {A B} (f : A -> Py W B) (it : Iterator W A) w :
  step (map_object f it) w =
    match step it w with
    | (Ret (Yield a it'), w1) =>
        match f a w1 with
        | (Ret b, w2) => (Ret (Yield b (map_object f it')), w2)
        | (Raise e, w2) =>
            if isinstance e "StopIteration" then (Ret Done, w2) else (Raise e, w2)
        end
    | (Ret (Skip it'), w1) => (Ret (Skip (map_object f it')), w1)
    | (Ret Done, w1) => (Ret Done, w1)
    | (Raise e, w1) => (Raise e, w1)
    end.
Proof.
  cbn [step]. unfold Py.bind, in_next.
  destruct (step it w) as [[[a it'|it'|]|e] w1]; try reflexivity.
  destruct (f a w1) as [[b|e] w2]; reflexivity.
Qed.

Lemma step_filter_object {A} (predicate : A -> Py W bool) (it : Iterator W A) w :
  step (filter_object predicate it) w =
    match step it w with
    | (Ret (Yield a it'), w1) =>
        match predicate a w1 with
        | (Ret true, w2) => (Ret (Yield a (filter_object predicate it')), w2)
        | (Ret false, w2) => (Ret (Skip (filter_object predicate it')), w2)
        | (Raise e, w2) =>
            if isinstance e "StopIteration" then (Ret Done, w2) else (Raise e, w2)
        end
    | (Ret (Skip it'), w1) => (Ret (Skip (filter_object predicate it')), w1)
    | (Ret Done, w1) => (Ret Done, w1)
    | (Raise e, w1) => (Raise e, w1)
    end.
Proof.
  cbn [step]. unfold Py.bind, in_next.
  destruct (step it w) as [[[a it'|it'|]|e] w1]; try reflexivity.
  destruct (predicate a w1) as [[[|]|e] w2]; reflexivity.
Qed.

Lemma step_islice {A} (it : Iterator W A) (remaining : nat) w :
  step (islice it remaining) w =
    match remaining with
    | O => (Ret Done, w)
    | S remaining' =>
        match step it w with
        | (Ret (Yield a it'), w1) => (Ret (Yield a (islice it' remaining')), w1)
        | (Ret (Skip it'), w1) => (Ret (Skip (islice it' remaining)), w1)
        | (Ret Done, w1) => (Ret Done, w1)
        | (Raise e, w1) => (Raise e, w1)
        end
    end.
Proof.
  destruct remaining as [|remaining']; [reflexivity|].
  cbn [step]. unfold Py.bind.
  destruct (step it w) as [[[a it'|it'|]|e] w1]; reflexivity.
Qed.

Lemma step_bind_start {A B} (self : Stream W A) (f : A -> Py W (Stream W B)) w :
  step (bind_start self f) w =
    match source self w with
    | (Ret items, w1) => (Ret (Skip (bind_outer items f)), w1)
    | (Raise e, w1) => (Raise (raised_in_generator e), w1)
    end.
Proof.
  cbn [step]. unfold generator_body, Py.bind.
  destruct (source self w) as [[items|e] w1]; reflexivity.
Qed.

Lemma step_bind_outer {A B} (items : Iterator W A) (f : A -> Py W (Stream W B)) w :
  step (bind_outer items f) w =
    match step items w with
    | (Ret (Yield item items'), w1) =>
        match f item w1 with
        | (Ret sub, w2) =>
            match source sub w2 with
            | (Ret sub_items, w3) => (Ret (Skip (bind_inner items' f sub_items)), w3)
            | (Raise e, w3) => (Raise (raised_in_generator e), w3)
            end
        | (Raise e, w2) => (Raise (raised_in_generator e), w2)
        end
    | (Ret (Skip items'), w1) => (Ret (Skip (bind_outer items' f)), w1)
    | (Ret Done, w1) => (Ret Done, w1)
    | (Raise e, w1) => (Raise e, w1)
    end.
Proof.
  cbn [step]. unfold generator_body, Py.bind.
  destruct (step items w) as [[[item items'|items'|]|e] w1]; try reflexivity.
  destruct (f item w1) as [[sub|e] w2]; [|reflexivity].
  destruct (source sub w2) as [[sub_items|e] w3]; reflexivity.
Qed.

Lemma step_bind_inner {A B} (items : Iterator W A) (f : A -> Py W (Stream W B))
    (sub_items : Iterator W B) w :
  step (bind_inner items f sub_items) w =
    match step sub_items w with
    | (Ret (Yield sub_item sub_items'), w1) =>
        (Ret (Yield sub_item (bind_inner items f sub_items')), w1)
    | (Ret (Skip sub_items'), w1) => (Ret (Skip (bind_inner items f sub_items')), w1)
    | (Ret Done, w1) => (Ret (Skip (bind_outer items f)), w1)
    | (Raise e, w1) => (Raise e, w1)
    end.
Proof.
  cbn [step]. unfold Py.bind.
  destruct (step sub_items w) as [[[x it'|it'|]|e] w1]; reflexivity.
Qed.

Lemma step_distinct_start {A} `{Countable A} (self : Stream W A) w :
  step (distinct_start self) w =
    match source self w with
    | (Ret items, w1) => (Ret (Skip (distinct_loop ∅ items)), w1)
    | (Raise e, w1) => (Raise (raised_in_generator e), w1)
    end.
Proof.
  cbn [step]. unfold generator_body, Py.bind.
  destruct (source self w) as [[items|e] w1]; reflexivity.
Qed.

Lemma step_distinct_loop {A} `{Countable A} (seen : gset A) (items : Iterator W A) w :
  step (distinct_loop seen items) w =
    match step items w with
    | (Ret (Yield item items'), w1) =>
        if decide (item ∈ seen) then (Ret (Skip (distinct_loop seen items')), w1)
        else (Ret (Yield item (distinct_loop ({[item]} ∪ seen) items')), w1)
    | (Ret (Skip items'), w1) => (Ret (Skip (distinct_loop seen items')), w1)
    | (Ret Done, w1) => (Ret Done, w1)
    | (Raise e, w1) => (Raise e, w1)
    end.
Proof.
  cbn [step]. unfold Py.bind.
  destruct (step items w) as [[[item items'|items'|]|e] w1]; try reflexivity.
  destruct (decide (item ∈ seen)); reflexivity.
Qed.

(** What is raised in the body of a generator is never left a
    [StopIteration], and an instance of [Exception] stays one. *)
Lemma raised_in_generator_not_StopIteration (e : Exception) :
  isinstance (raised_in_generator e) "StopIteration" = false.
Proof.
  unfold raised_in_generator.
  destruct (isinstance e "StopIteration") eqn:He; [reflexivity | exact He].
Qed.

Lemma raised_in_generator_id (e : Exception) :
  isinstance e "StopIteration" = false -> raised_in_generator e = e.
Proof. intros He. unfold raised_in_generator. now rewrite He. Qed.

Lemma generator_body_id {A} (m : Py W A) w :
  (forall e w', m w = (Raise e, w') -> isinstance e "StopIteration" = false) ->
  generator_body m w = m w.
Proof.
  intros Hm. unfold generator_body.
  destruct (m w) as [[a|e] w'] eqn:Hmw; [reflexivity|].
  now rewrite (raised_in_generator_id e (Hm e w' eq_refl)).
Qed.
End LoopFacts.


(* ===================================================================== *)
(** * Part II: properties                                                 *)
(* ===================================================================== *)

(** ** Result ([Either]) and Deferred Effect ([IO]) *)

Section EitherFacts.
Import Either.
Context {W E : Type} `{HoldsException E}.

Lemma map_right_returns {A B} (v : A) (f : A -> Py W B) w b w' :
  f v w = (Ret b, w') -> map (Right v) f w = (Ret (Right b), w').
Proof. intros Hf. unfold map, try_except, Py.bind. now rewrite Hf. Qed.

Lemma map_right_raises {A B} (v : A) (f : A -> Py W B) w x w' :
  f v w = (Raise x, w') ->
  map (Right v) f w
  = (if isinstance x "Exception" then Ret (Left (of_exception x)) else Raise x, w').
Proof.
  intros Hf. unfold map, try_except, Py.bind. rewrite Hf.
  now destruct (isinstance x "Exception").
Qed.
End EitherFacts.

(** C4, as the code has it.  [Either.map] turns an instance of
    [Exception] raised by [f] into a [Left] holding it, and lets anything
    else that [f] raises go on to the caller; it hands a [Left] on with
    the same error and without calling [f].  [Either.bind] returns
    whatever the call [f(value)] does on a [Right], what it raises
    included, and hands a [Left] on with the same error and without
    calling [f]. *)
Theorem either_map_catches_bind_does_not :
  forall (W E A B : Type) `(Either.HoldsException E)
         (v : A) (e : E) (f : A -> Py W B) (g : A -> Py W (Either.Either E B)) (w : W),
    Either.map (Either.Right v) f w =
      (let '(r, w') := f v w in
       (match r with
        | Ret b => Ret (Either.Right b)
        | Raise x =>
            if isinstance x "Exception"
            then Ret (Either.Left (Either.of_exception x))
            else Raise x
        end, w'))
    /\ Either.map (Either.Left e) f w = (Ret (Either.Left e), w)
    /\ Either.bind (Either.Right v) g w = g v w
    /\ Either.bind (Either.Left e) g w = (Ret (Either.Left e), w).
Proof.
  intros W E A B HE v e f g w. repeat split.
  destruct (f v w) as [[b|x] w'] eqn:Hf.
  - now apply map_right_returns.
  - now apply map_right_raises.
Qed.

(** C4 as stated fails: an error raised by [f] that is not an instance
    of [Exception], here a [KeyboardInterrupt], leaves [map]. *)
Lemma either_map_propagates_counterexample :
  Either.map (E := Exception) (Either.Right 0) (fun _ : Z => raise (A := Z) KeyboardInterrupt) tt
  = (Raise KeyboardInterrupt, tt).
Proof. reflexivity. Qed.

Section IOFacts.
Import IO.
Context {W : Type}.

Lemma range_nonpositive (n : Z) : n <= 0 -> Py.range n = [].
Proof. intros Hn. unfold Py.range. now replace (Z.to_nat n) with O by lia. Qed.

Lemma range_attempts_from (n : Z) : Py.range n = attempts_from 0 (Z.to_nat n).
Proof. reflexivity. Qed.

Lemma invocations_S {A} (eff : Py W A) (n : nat) (w : W) :
  invocations eff (S n) w
  = (let '(r, w1) := eff w in
     let '(rs, w2) := invocations eff n w1 in (r :: rs, w2)).
Proof. reflexivity. Qed.

(** The loop goes on after an invocation that raises an instance of
    [Exception], as long as it is not the last attempt. *)
Lemma retry_loop_goes_on {A} (eff : Py W A) (max_attempts : Z)
    (attempt : Z) (rest : list Z) last (e : Exception) w w1 :
  eff w = (Raise e, w1) ->
  isinstance e "Exception" = true ->
  attempt <> max_attempts - 1 ->
  retry_loop (mkIO eff) max_attempts (attempt :: rest) last w
  = retry_loop (mkIO eff) max_attempts rest (Some e) w1.
Proof.
  intros Heff He Hne. cbn [retry_loop effect]. rewrite Heff, He.
  now replace (attempt =? max_attempts - 1) with false
    by (symmetry; apply Z.eqb_neq; exact Hne).
Qed.

(** The loop ends at an invocation that returns, at one that raises
    something that is not an instance of [Exception], and at the last
    attempt. *)
Lemma retry_loop_ends {A} (eff : Py W A) (max_attempts : Z)
    (attempt : Z) (rest : list Z) last (r : outcome A) w w1 :
  eff w = (r, w1) ->
  match r with
  | Ret _ => True
  | Raise e => isinstance e "Exception" = false \/ attempt = max_attempts - 1
  end ->
  retry_loop (mkIO eff) max_attempts (attempt :: rest) last w = (r, w1).
Proof.
  intros Heff Hr. cbn [retry_loop effect]. rewrite Heff.
  destruct r as [v|e]; [reflexivity|].
  destruct (isinstance e "Exception"); [|reflexivity].
  destruct Hr as [Hr| ->]; [discriminate|]. now rewrite Z.eqb_refl.
Qed.

(** The first invocations raise instances of [Exception] and the next
    one, within the attempts left, ends the loop. *)
Lemma retry_loop_run {A} (eff : Py W A) (max_attempts : Z) :
  forall (errs : list Exception) (k n : nat) (r : outcome A) last w w',
    Forall (fun e => isinstance e "Exception" = true) errs ->
    (length errs < n)%nat ->
    Z.of_nat (k + n) = max_attempts ->
    invocations eff (S (length errs)) w = ((Raise <$> errs) ++ [r], w') ->
    match r with
    | Ret _ => True
    | Raise e => isinstance e "Exception" = false \/ S (length errs) = n
    end ->
    retry_loop (mkIO eff) max_attempts (attempts_from k n) last w = (r, w').
Proof.
  induction errs as [|e0 errs IH]; intros k n r last w w' Herrs Hlt Hk Hinv Hr;
    (destruct n as [|n]; [simpl in Hlt; lia|]);
    change (attempts_from k (S n)) with (Z.of_nat k :: attempts_from (S k) n);
    rewrite invocations_S in Hinv; destruct (eff w) as [r1 w1] eqn:Heff.
  - cbn in Hinv. injection Hinv as -> ->.
    eapply retry_loop_ends; [exact Heff|].
    destruct r as [v|e]; [exact I|]. cbn [length] in Hr.
    destruct Hr as [Hr|Hr]; [now left | right; lia].
  - cbn [length] in Hinv.
    destruct (invocations eff (S (length errs)) w1) as [rs w2] eqn:Hrest.
    cbn in Hinv. injection Hinv as -> -> ->.
    apply Forall_cons in Herrs as [He0 Herrs].
    rewrite (retry_loop_goes_on eff max_attempts _ _ last e0 w w1 Heff He0)
      by (cbn [length] in Hlt; lia).
    eapply IH; [exact Herrs | cbn [length] in Hlt; lia | lia | exact Hrest |].
    destruct r as [v|e]; [exact I|]. cbn [length] in Hr.
    destruct Hr as [Hr|Hr]; [now left | right; lia].
Qed.

(** Counting the invocations of a closure does not change what they do. *)
Lemma invocations_counted {A} (eff : Py W A) :
  forall (n c : nat) w,
    invocations (counted eff) n (w, c)
    = (let '(rs, w') := invocations eff n w in (rs, (w', (c + n)%nat))).
Proof.
  induction n as [|n IH]; intros c w; simpl.
  - now rewrite Nat.add_0_r.
  - destruct (eff w) as [r w1]. rewrite IH.
    destruct (invocations eff n w1) as [rs w2].
    now replace (S c + n)%nat with (c + S n)%nat by lia.
Qed.

(** The number of outcomes is the number of invocations. *)
Lemma invocations_length {A} (eff : Py W A) :
  forall (n : nat) w, length (invocations eff n w).1 = n.
Proof.
  induction n as [|n IH]; intros w; [reflexivity|].
  rewrite invocations_S. destruct (eff w) as [r w1].
  specialize (IH w1). destruct (invocations eff n w1) as [rs w2].
  cbn in *. now rewrite IH.
Qed.
End IOFacts.

(** C5, as the code has it.  Running [e.attempt()] returns
    [Either.right(v)] when the closure returns [v] and [Either.left(x)],
    holding that very error, when the closure raises an instance [x] of
    [Exception]; anything else the closure raises is raised by the run.
    The world is the one the closure left. *)
Theorem attempt_run_catches_Exception :
  forall (W A : Type) (e : IO.IO W A) (w : W),
    IO.run (IO.attempt e) w =
      (let '(r, w') := IO.run e w in
       (match r with
        | Ret v => Ret (Either.right v)
        | Raise x =>
            if isinstance x "Exception" then Ret (Either.left x) else Raise x
        end, w')).
Proof.
  intros W A e w. unfold IO.run, IO.attempt, try_except, Py.bind. simpl.
  destruct (IO.effect e w) as [[v|x] w']; [reflexivity|].
  now destruct (isinstance x "Exception").
Qed.

(** C5 as stated fails: the run of [IO(lambda: sys.exit(1)).attempt()]
    raises [SystemExit]. *)
Lemma attempt_run_raises_counterexample :
  IO.run (IO.attempt (IO.mkIO (raise (W := unit) (A := Z) SystemExit))) tt
  = (Raise SystemExit, tt).
Proof. reflexivity. Qed.

(** C3, as the code has it.  With [max_attempts >= 1], running
    [e.retry(max_attempts)] invokes the closure one attempt after the
    other, going on after an attempt that raises an instance of
    [Exception].  If the first attempts raise the instances [errs] of
    [Exception] and the next one, still within [max_attempts], returns
    [v], the run returns [v] after exactly [len(errs) + 1] invocations.
    If all [max_attempts] invocations raise, the ones before the last
    instances of [Exception], the run raises the error [x] of the last one
    after exactly [max_attempts] invocations.  If the attempt after [errs]
    raises an [x] that is not an instance of [Exception], the run raises
    [x] at once, after exactly [len(errs) + 1] invocations.  The
    invocations are counted by the instrumented closure [counted eff]. *)
Theorem retry_first_return_or_last_error :
  forall (W A : Type) (eff : Py W A) (max_attempts : Z) (w : W),
    1 <= max_attempts ->
    (forall (errs : list Exception) (v : A) (w' : W),
        Forall (fun e => isinstance e "Exception" = true) errs ->
        (length errs < Z.to_nat max_attempts)%nat ->
        invocations eff (S (length errs)) w = ((Raise <$> errs) ++ [Ret v], w') ->
        IO.run (IO.retry (IO.mkIO (counted eff)) max_attempts) (w, O)
        = (Ret v, (w', S (length errs))))
    /\ (forall (errs : list Exception) (x : Exception) (w' : W),
        Forall (fun e => isinstance e "Exception" = true) errs ->
        invocations eff (Z.to_nat max_attempts) w = (Raise <$> (errs ++ [x]), w') ->
        IO.run (IO.retry (IO.mkIO (counted eff)) max_attempts) (w, O)
        = (Raise x, (w', Z.to_nat max_attempts)))
    /\ (forall (errs : list Exception) (x : Exception) (w' : W),
        Forall (fun e => isinstance e "Exception" = true) errs ->
        isinstance x "Exception" = false ->
        (length errs < Z.to_nat max_attempts)%nat ->
        invocations eff (S (length errs)) w = (Raise <$> (errs ++ [x]), w') ->
        IO.run (IO.retry (IO.mkIO (counted eff)) max_attempts) (w, O)
        = (Raise x, (w', S (length errs)))).
Proof.
  intros W A eff max_attempts w Hmax.
  unfold IO.run, IO.retry. cbn [IO.effect]. rewrite range_attempts_from.
  split; [|split].
  - intros errs v w' Herrs Hlt Hinv.
    eapply retry_loop_run with (errs := errs);
      [exact Herrs | exact Hlt | lia | | exact I].
    rewrite invocations_counted, Hinv. reflexivity.
  - intros errs x w' Herrs Hinv.
    assert (Hlen : S (length errs) = Z.to_nat max_attempts).
    { pose proof (invocations_length eff (Z.to_nat max_attempts) w) as Hl.
      rewrite Hinv in Hl. cbn [fst] in Hl.
      rewrite length_fmap, length_app in Hl. cbn [length] in Hl. lia. }
    rewrite <- Hlen in *.
    eapply retry_loop_run with (errs := errs);
      [exact Herrs | lia | lia | | now right].
    rewrite invocations_counted, Hinv, fmap_app. reflexivity.
  - intros errs x w' Herrs Hx Hlt Hinv.
    eapply retry_loop_run with (errs := errs);
      [exact Herrs | exact Hlt | lia | | now left].
    rewrite invocations_counted, Hinv, fmap_app. reflexivity.
Qed.

Lemma retry_first_return_or_last_error_witness :
  IO.run (IO.retry (IO.mkIO (counted (flaky 2))) 3) (O, O) = (Ret 42, (3%nat, 3%nat))
  /\ IO.run (IO.retry (IO.mkIO (counted (flaky 9))) 3) (O, O)
     = (Raise boom, (3%nat, 3%nat))
  /\ IO.run (IO.retry (IO.mkIO (counted interrupted)) 3) (O, O)
     = (Raise KeyboardInterrupt, (1%nat, 1%nat)).
Proof.
  split; [|split].
  - apply (proj1 (retry_first_return_or_last_error nat Z (flaky 2) 3 O ltac:(lia))
             [boom; boom] 42 3%nat);
      [repeat constructor | simpl; lia | reflexivity].
  - apply (proj1 (proj2 (retry_first_return_or_last_error nat Z (flaky 9) 3 O
                           ltac:(lia)))
             [boom; boom] boom 3%nat); [repeat constructor | reflexivity].
  - apply (proj2 (proj2 (retry_first_return_or_last_error nat Z interrupted 3 O
                           ltac:(lia)))
             [] KeyboardInterrupt 1%nat);
      [constructor | reflexivity | simpl; lia | reflexivity].
Defined.

(** C3 as stated fails: a closure that raises [KeyboardInterrupt] on
    every invocation, three in a row included, is invoked once by the run
    of [retry(3)], not three times. *)
Lemma retry_not_retried_counterexample :
  invocations interrupted 3 O
  = (Raise <$> [KeyboardInterrupt; KeyboardInterrupt; KeyboardInterrupt], 3%nat)
  /\ IO.run (IO.retry (IO.mkIO (counted interrupted)) 3) (O, O)
     = (Raise KeyboardInterrupt, (1%nat, 1%nat)).
Proof. split; reflexivity. Qed.

(** C10. With [max_attempts <= 0] the attempt loop has no turn: the closure
    is not invoked (its counter stays where it was and the world is
    untouched) and the [raise last_exception] after the loop, with
    [last_exception] still [None], raises a [TypeError]. *)
Theorem retry_nonpositive_raises_TypeError :
  forall (W A : Type) (eff : Py W A) (max_attempts : Z) (w : W),
    max_attempts <= 0 ->
    IO.run (IO.retry (IO.mkIO (counted eff)) max_attempts) (w, O)
    = (Raise TypeError_not_exception, (w, O)).
Proof.
  intros W A eff max_attempts w Hmax.
  unfold IO.run, IO.retry. cbn [IO.effect].
  rewrite range_nonpositive by exact Hmax. reflexivity.
Qed.

Lemma retry_nonpositive_raises_TypeError_witness :
  IO.run (IO.retry (IO.mkIO (counted (flaky 0))) 0) (O, O)
  = (Raise TypeError_not_exception, (O, O))
  /\ IO.run (IO.retry (IO.mkIO (counted (flaky 0))) (-2)) (O, O)
     = (Raise TypeError_not_exception, (O, O)).
Proof.
  split.
  - apply (retry_nonpositive_raises_TypeError nat Z (flaky 0) 0 O). lia.
  - apply (retry_nonpositive_raises_TypeError nat Z (flaky 0) (-2) O). lia.
Defined.

(** ** Lazy Sequence ([Stream]) *)

Section StreamFacts.
Import Stream.
Context {W : Type}.

(** *** [bind] on a one-element stream *)

(** Once the only outer element is consumed, the generator of [bind]
    hands out what the sub-stream's iterator does, and needs two more
    loop turns to notice that both are exhausted. *)
Lemma list_of_bind_inner_last {A B} (f : A -> Py W (Stream W B)) :
  forall (fuel : nat) (sub_items : Iterator W B) w r,
    list_of fuel sub_items w = Some r ->
    list_of (S (S fuel)) (bind_inner (list_iterator []) f sub_items) w = Some r.
Proof.
  induction fuel as [|fuel IH]; intros sub_items w r Hr; [discriminate|].
  rewrite list_of_unfold in Hr. rewrite list_of_unfold.
  cbn [step]. unfold Py.bind.
  destruct (step sub_items w) as [[[b it'|it'|]|e] w']; cbn [ret].
  - destruct (list_of fuel it' w') as [r'|] eqn:Hit; [|discriminate].
    now rewrite (IH _ _ _ Hit).
  - now apply IH.
  - exact Hr.
  - exact Hr.
Qed.

Lemma list_of_bind_inner_last_inv {A B} (f : A -> Py W (Stream W B)) :
  forall (fuel : nat) (sub_items : Iterator W B) w r,
    list_of fuel (bind_inner (list_iterator []) f sub_items) w = Some r ->
    list_of fuel sub_items w = Some r.
Proof.
  induction fuel as [|fuel IH]; intros sub_items w r Hr; [discriminate|].
  rewrite list_of_unfold in Hr. rewrite list_of_unfold.
  cbn [step] in Hr. unfold Py.bind in Hr.
  destruct (step sub_items w) as [[[b it'|it'|]|e] w']; cbn [ret] in Hr.
  - destruct (list_of fuel (bind_inner (list_iterator []) f it') w')
      as [r'|] eqn:Hit; [|discriminate].
    now rewrite (IH _ _ _ Hit).
  - now apply IH.
  - destruct fuel as [|fuel]; [discriminate|]. exact Hr.
  - exact Hr.
Qed.

(** What [bind]'s generator does with the one element [a]: it calls
    [f(a)] and asks the stream for its iterator, both in its own body. *)
Lemma bind_pure_to_list {A B} (a : A) (f : A -> Py W (Stream W B)) fuel w r :
  to_list fuel (mkStream (generator_body (s <~ f a; source s))) w = Some r ->
  to_list (S (S (S (S fuel)))) (bind (pure a) f) w = Some r.
Proof.
  unfold to_list. cbn [bind source ret].
  rewrite (list_of_unfold _ (bind_start _ _)), step_bind_start. cbn [pure source ret].
  rewrite (list_of_unfold _ (bind_outer _ _)), step_bind_outer. cbn [step ret].
  unfold generator_body, Py.bind.
  destruct (f a w) as [[sub|e] w1]; [|trivial].
  destruct (source sub w1) as [[sub_items|e] w2]; [|trivial].
  apply list_of_bind_inner_last.
Qed.

Lemma bind_pure_to_list_inv {A B} (a : A) (f : A -> Py W (Stream W B)) fuel w r :
  to_list fuel (bind (pure a) f) w = Some r ->
  to_list fuel (mkStream (generator_body (s <~ f a; source s))) w = Some r.
Proof.
  unfold to_list. cbn [bind source ret].
  destruct fuel as [|fuel]; [discriminate|].
  rewrite (list_of_unfold _ (bind_start _ _)), step_bind_start. cbn [pure source ret].
  destruct fuel as [|fuel]; [discriminate|].
  rewrite (list_of_unfold _ (bind_outer _ _)), step_bind_outer. cbn [step ret].
  unfold generator_body, Py.bind.
  destruct (f a w) as [[sub|e] w1]; [|trivial].
  destruct (source sub w1) as [[sub_items|e] w2]; [|trivial].
  intros Hr. apply list_of_bind_inner_last_inv in Hr.
  eapply list_of_mono; [|exact Hr]. lia.
Qed.
End StreamFacts.

(** C1, as the code has it.  Deferred Effect: running
    [IO.pure(a).bind(f)] does what calling [f(a)] and running the effect it
    returns does.  Result: [Either.pure(a).bind(f)] is the call [f(a)].
    Lazy Sequence: [Stream.pure(a).bind(f).to_list()] returns an outcome
    (a list or a raised error, with the world it leaves) exactly when
    [f(a).to_list()] returns it, with one difference: [bind] calls [f(a)]
    and asks the stream for its iterator in the body of a generator, so a
    [StopIteration] raised by one of these two calls comes out as a
    [RuntimeError].  When neither raises a [StopIteration] the two agree. *)
Theorem left_identity_up_to_StopIteration :
  (forall (W A B : Type) (a : A) (f : A -> Py W (IO.IO W B)) (w : W),
      IO.run (IO.bind (IO.pure a) f) w = (io <~ f a; IO.run io) w)
  /\ (forall (W E A B : Type) (a : A) (f : A -> Py W (Either.Either E B)) (w : W),
      Either.bind (Either.pure a) f w = f a w)
  /\ (forall (W A B : Type) (a : A) (f : A -> Py W (Stream.Stream W B)) (w : W)
             (r : outcome (list B) * W),
      (Stream.returns (fun fuel => Stream.to_list fuel (Stream.bind (Stream.pure a) f)) w r
       <-> Stream.returns
             (fun fuel =>
                Stream.to_list fuel
                  (Stream.mkStream (generator_body (s <~ f a; Stream.source s))))
             w r)
      /\ ((forall e w', (s <~ f a; Stream.source s) w = (Raise e, w') ->
                        isinstance e "StopIteration" = false) ->
          (Stream.returns
             (fun fuel => Stream.to_list fuel (Stream.bind (Stream.pure a) f)) w r
           <-> Stream.returns (fun fuel => Stream.then_to_list fuel (f a)) w r))).
Proof.
  split; [|split].
  - reflexivity.
  - reflexivity.
  - intros W A B a f w r.
    assert (Hfirst :
      Stream.returns (fun fuel => Stream.to_list fuel (Stream.bind (Stream.pure a) f)) w r
      <-> Stream.returns
            (fun fuel =>
               Stream.to_list fuel
                 (Stream.mkStream (generator_body (s <~ f a; Stream.source s))))
            w r).
    { unfold Stream.returns. split; intros [fuel Hr].
      - exists fuel. now apply bind_pure_to_list_inv.
      - eexists. apply bind_pure_to_list, Hr. }
    split; [exact Hfirst|].
    intros Hf. rewrite Hfirst. unfold Stream.returns.
    assert (Hsame : forall fuel,
      Stream.to_list fuel
        (Stream.mkStream (generator_body (s <~ f a; Stream.source s))) w
      = Stream.then_to_list fuel (f a) w).
    { intros fuel. unfold Stream.to_list, Stream.then_to_list.
      cbn [Stream.source]. rewrite generator_body_id by exact Hf.
      unfold Py.bind. destruct (f a w) as [[sub|e] w1]; reflexivity. }
    split; intros [fuel Hr]; exists fuel; [now rewrite <- Hsame | now rewrite Hsame].
Qed.

Lemma left_identity_up_to_StopIteration_witness :
  Stream.returns
    (fun fuel =>
       Stream.to_list fuel
         (Stream.bind (Stream.pure 1) (fun a => ret (Stream.of_ [a; a + 1]))))
    tt (Ret [1; 2], tt)
  <-> Stream.returns
        (fun fuel =>
           Stream.then_to_list fuel (ret (W := unit) (Stream.of_ [1; 1 + 1])))
        tt (Ret [1; 2], tt).
Proof.
  apply (proj2 (proj2 (proj2 left_identity_up_to_StopIteration) unit Z Z 1
                  (fun a => ret (Stream.of_ [a; a + 1])) tt (Ret [1; 2], tt))).
  intros e w'. discriminate.
Defined.

(** C1 as stated fails for [Stream]: with an [f] that returns a stream
    whose source raises [StopIteration], [f(a).to_list()] raises that
    [StopIteration] and [pure(a).bind(f).to_list()] a [RuntimeError]. *)
Lemma left_identity_StopIteration_counterexample :
  Stream.then_to_list 1 (ret (stops (W := unit) (A := Z))) tt
  = Some (Raise StopIteration, tt)
  /\ Stream.to_list 2 (Stream.bind (Stream.pure 0) (fun _ : Z => ret (stops (A := Z)))) tt
     = Some (Raise RuntimeError_generator, tt)
  /\ ~ (forall r : outcome (list Z) * unit,
          Stream.returns
            (fun fuel =>
               Stream.to_list fuel
                 (Stream.bind (Stream.pure 0) (fun _ : Z => ret (stops (A := Z)))))
            tt r
          <-> Stream.returns
                (fun fuel => Stream.then_to_list fuel (ret (stops (A := Z)))) tt r).
Proof.
  split; [reflexivity|]. split; [reflexivity|].
  intros Hlaw.
  destruct (proj1 (Hlaw (Raise RuntimeError_generator, tt))) as [fuel Hr].
  - now exists 2%nat.
  - destruct fuel; discriminate.
Qed.

Section TakeMapCount.
Import Stream.
Context {W B : Type} (f : Z -> Py W B).



End TakeMapCount.






(** *** [distinct] *)

Section Distinct.
Import Stream.
Context {W A : Type} `{Countable A}.


Lemma first_occurrences_from_elem (l : list A) :
  forall earlier x,
    x ∈ first_occurrences_from earlier l <-> x ∈ l /\ x ∉ earlier.
Proof.
  induction l as [|y l IH]; intros earlier x; cbn [first_occurrences_from].
  - set_solver.
  - destruct (decide (y ∈ earlier)) as [Hin|Hnin].
    + rewrite IH. set_solver.
    + rewrite elem_of_cons, IH.
      destruct (decide (x = y)) as [->|Hne]; set_solver.
Qed.

Lemma first_occurrences_from_NoDup (l : list A) :
  forall earlier, NoDup (first_occurrences_from earlier l).
Proof.
  induction l as [|y l IH]; intros earlier; cbn [first_occurrences_from].
  - constructor.
  - destruct (decide (y ∈ earlier)); [apply IH|].
    constructor; [|apply IH].
    rewrite first_occurrences_from_elem. set_solver.
Qed.

Lemma first_occurrences_from_sublist (l : list A) :
  forall earlier, (first_occurrences_from earlier l) `sublist_of` l.
Proof.
  induction l as [|y l IH]; intros earlier; cbn [first_occurrences_from].
  - constructor.
  - destruct (decide (y ∈ earlier)).
    + apply sublist_cons, IH.
    + apply sublist_skip, IH.
Qed.

(** The element at position [i] is kept exactly when it does not occur
    at an earlier position. *)
Lemma first_occurrences_from_lookup (l : list A) :
  forall earlier x,
    x ∈ first_occurrences_from earlier l <->
    exists i, l !! i = Some x /\ (x ∉ earlier) /\ (x ∉ firstn i l).
Proof.
  intros earlier x. rewrite first_occurrences_from_elem. split.
  - intros [Hin Hnin].
    induction l as [|y l IH]; [set_solver|].
    destruct (decide (x = y)) as [->|Hne].
    + exists O. cbn. set_solver.
    + apply elem_of_cons in Hin as [?|Hin]; [done|].
      destruct (IH Hin) as (i & Hi & _ & Hti).
      exists (S i). cbn. set_solver.
  - intros (i & Hi & Hnin & _). split; [|done].
    eapply list_elem_of_lookup_2, Hi.
Qed.

(** The generator of [distinct] in its loop: [seen] holds the elements
    met so far. *)
Lemma list_of_distinct_loop :
  forall (fuel : nat) (items : Iterator W A) (seen : gset A) (earlier l : list A) w w',
    (forall x, x ∈ seen <-> x ∈ earlier) ->
    list_of fuel items w = Some (Ret l, w') ->
    list_of fuel (distinct_loop seen items) w
    = Some (Ret (first_occurrences_from earlier l), w').
Proof.
  induction fuel as [|fuel IH]; intros items seen earlier l w w' Hseen Hl;
    [discriminate|].
  rewrite list_of_unfold in Hl. rewrite list_of_unfold.
  cbn [step]. unfold Py.bind.
  destruct (step items w) as [[[a it'|it'|]|e] w1]; cbn [ret].
  - destruct (list_of fuel it' w1) as [[[l'|e] w2]|] eqn:Hit; try discriminate.
    injection Hl as <- <-. cbn [first_occurrences_from].
    destruct (decide (a ∈ seen)) as [Hin|Hnin].
    + rewrite decide_True by (now apply Hseen).
      cbn [ret]. eapply IH; [|exact Hit]. set_solver.
    + rewrite decide_False by (now rewrite <- Hseen).
      cbn [ret]. erewrite IH; [reflexivity| |exact Hit]. set_solver.
  - eapply IH; eassumption.
  - now injection Hl as <- <-.
  - discriminate.
Qed.
End Distinct.

(** C6. For a stream whose traversal ends, with the elements [l],
    [distinct().to_list()] returns the first occurrence of each distinct
    element of [l] in the order of [l], whether the repetitions are
    consecutive or not: the result has no duplicates, has the elements of
    [l], is a subsequence of [l], and holds an element exactly for the
    position where it occurs for the first time.  The world is left as the
    traversal of the stream itself leaves it. *)
Theorem distinct_keeps_first_occurrences :
  forall (W A : Type) `(Countable A) (s : Stream.Stream W A)
         (fuel : nat) (w w' : W) (l : list A),
    Stream.to_list fuel s w = Some (Ret l, w') ->
    Stream.to_list (S fuel) (Stream.distinct s) w = Some (Ret (first_occurrences l), w')
    /\ NoDup (first_occurrences l)
    /\ (forall x, x ∈ first_occurrences l <-> x ∈ l)
    /\ (first_occurrences l) `sublist_of` l
    /\ (forall x, x ∈ first_occurrences l <->
                  exists i, l !! i = Some x /\ (x ∉ firstn i l)).
Proof.
  intros W A EqA CA s fuel w w' l Hl. repeat split.
  - unfold Stream.to_list in *. cbn [Stream.distinct Stream.source ret].
    rewrite list_of_unfold, step_distinct_start.
    destruct (Stream.source s w) as [[items|e] w1]; [|discriminate].
    eapply list_of_distinct_loop; [|exact Hl]. set_solver.
  - apply first_occurrences_from_NoDup.
  - unfold first_occurrences. rewrite first_occurrences_from_elem. set_solver.
  - unfold first_occurrences. rewrite first_occurrences_from_elem. set_solver.
  - apply first_occurrences_from_sublist.
  - unfold first_occurrences. rewrite first_occurrences_from_lookup.
    intros (i & Hi & _ & Hti). eauto.
  - unfold first_occurrences. rewrite first_occurrences_from_lookup.
    intros (i & Hi & Hti). exists i. set_solver.
Qed.

Lemma distinct_keeps_first_occurrences_witness :
  Stream.to_list 8 (Stream.distinct (Stream.of_ [1; 2; 2; 3; 3; 3])) tt
  = Some (Ret [1; 2; 3], tt).
Proof.
  exact (proj1 (distinct_keeps_first_occurrences unit Z _
                  (Stream.of_ [1; 2; 2; 3; 3; 3]) 7 tt tt [1; 2; 2; 3; 3; 3] eq_refl)).
Defined.

(** *** [find] *)

Section Find.
Import Stream.
Context {W A : Type} (p : A -> Py W bool).

(** The record only grows. *)
Lemma reduce_loop_observing_extends :
  forall (fuel : nat) (it : Iterator W A) (seen l : list (A * bool)) w w',
    reduce_loop fuel it (observing p) seen w = Some (Ret l, w') ->
    exists l', l = seen ++ l'.
Proof.
  induction fuel as [|fuel IH]; intros it seen l w w' Hl; [discriminate|].
  rewrite reduce_loop_unfold in Hl.
  destruct (step it w) as [[[x it'|it'|]|e] w1].
  - unfold observing at 1, Py.bind in Hl.
    destruct (p x w1) as [[b|e] w2]; cbn [ret] in Hl; [|discriminate].
    destruct (IH _ _ _ _ _ Hl) as [l' ->].
    exists ((x, b) :: l'). now rewrite <- app_assoc.
  - eapply IH, Hl.
  - injection Hl as <- <-. exists []. now rewrite app_nil_r.
  - discriminate.
Qed.

(** When the record of the first [n] elements ends with the first one
    the predicate accepts, [find] stops at it. *)
Lemma find_loop_first :
  forall (fuel : nat) (items : Iterator W A) (seen : list (A * bool))
         (earlier : list A) (e : A) w w',
    reduce_loop fuel (islice items (S (length earlier))) (observing p) seen w
    = Some (Ret (seen ++ ((fun x => (x, false)) <$> earlier) ++ [(e, true)]), w') ->
    find_loop fuel items p w = Some (Ret (Either.right e), w').
Proof.
  induction fuel as [|fuel IH]; intros items seen earlier e w w' Hl; [discriminate|].
  rewrite reduce_loop_unfold, step_islice in Hl. rewrite find_loop_unfold.
  destruct (step items w) as [[[x it'|it'|]|x] w1].
  - unfold observing at 1, Py.bind in Hl.
    destruct (p x w1) as [[b|x0] w2]; cbn [ret] in Hl; [|discriminate].
    destruct (reduce_loop_observing_extends _ _ _ _ _ _ Hl) as [l' Hl'].
    rewrite <- app_assoc in Hl'. apply app_inv_head in Hl'.
    destruct earlier as [|y earlier]; cbn [fmap list_fmap app length] in *.
    + injection Hl' as <- <- <-.
      destruct fuel as [|fuel]; [discriminate|].
      rewrite reduce_loop_unfold, step_islice in Hl. congruence.
    + injection Hl' as <- <- _.
      apply (IH it' (seen ++ [(y, false)]) earlier e).
      rewrite Hl, <- app_assoc. reflexivity.
  - now apply (IH it' seen earlier e).
  - injection Hl as Hl _. exfalso.
    apply (f_equal length) in Hl. rewrite !length_app in Hl. cbn in Hl. lia.
  - discriminate.
Qed.

(** When the traversal ends and the predicate has refused every
    element, [find] has gone through all of it. *)
Lemma find_loop_none :
  forall (fuel : nat) (items : Iterator W A) (seen : list (A * bool))
         (l : list A) w w',
    reduce_loop fuel items (observing p) seen w
    = Some (Ret (seen ++ ((fun x => (x, false)) <$> l)), w') ->
    find_loop fuel items p w = Some (Ret (Either.left no_element_found), w').
Proof.
  induction fuel as [|fuel IH]; intros items seen l w w' Hl; [discriminate|].
  rewrite reduce_loop_unfold in Hl. rewrite find_loop_unfold.
  destruct (step items w) as [[[x it'|it'|]|x] w1].
  - unfold observing at 1, Py.bind in Hl.
    destruct (p x w1) as [[b|x0] w2]; cbn [ret] in Hl; [|discriminate].
    destruct (reduce_loop_observing_extends _ _ _ _ _ _ Hl) as [l' Hl'].
    rewrite <- app_assoc in Hl'. apply app_inv_head in Hl'.
    destruct l as [|y l]; cbn [fmap list_fmap app] in *; [discriminate|].
    injection Hl' as <- <- _.
    apply (IH it' (seen ++ [(y, false)]) l).
    rewrite Hl, <- app_assoc. reflexivity.
  - now apply (IH it' seen l).
  - congruence.
  - discriminate.
Qed.

(** When the traversal goes on for ever and the predicate refuses every
    element, [find] goes on for ever. *)
Lemma find_loop_never (goes_on : Iterator W A -> W -> Prop) :
  (forall it w,
      goes_on it w ->
      match step it w with
      | (Ret (Yield x it'), w1) =>
          exists w2, p x w1 = (Ret false, w2) /\ goes_on it' w2
      | (Ret (Skip it'), w1) => goes_on it' w1
      | _ => False
      end) ->
  forall (fuel : nat) (it : Iterator W A) w,
    goes_on it w -> find_loop fuel it p w = None.
Proof.
  intros Hinv. induction fuel as [|fuel IH]; intros it w Hit; [reflexivity|].
  rewrite find_loop_unfold. specialize (Hinv it w Hit).
  destruct (step it w) as [[[x it'|it'|]|x] w1]; try contradiction.
  - destruct Hinv as (w2 & -> & Hit'). now apply IH.
  - now apply IH.
Qed.
End Find.

(** C7, as the code has it.  What the predicate says of the elements, in
    traversal order, is what [reduce] records with [observing p].
    [find] returns [Either.right(e)] for the first element [e] in
    traversal order that satisfies the predicate, also on an unbounded
    stream: whenever the record of the first [n] elements of the stream
    is a refusal for each element of [earlier] and then the acceptance of
    [e].  When the traversal ends and the predicate has refused every
    element (the empty stream included) it returns
    [Either.left("No element found")], with a capital N.  When the
    traversal never ends and the predicate refuses every element, [find]
    does not return, whatever the budget: that is the case as soon as
    there is a set [goes_on] of states of the traversal, the first one
    among them, from each of which the next turn of the loop hands out an
    element that the predicate refuses, or none, and leads to a state of
    the set again. *)
Theorem find_first_match_or_No_element_found :
  forall (W A : Type) (s : Stream.Stream W A) (p : A -> Py W bool) (w : W),
    (forall (fuel : nat) (earlier : list A) (e : A) (w' : W),
        Stream.reduce fuel (Stream.take s (Z.of_nat (S (length earlier))))
          (observing p) [] w
        = Some (Ret (((fun x => (x, false)) <$> earlier) ++ [(e, true)]), w') ->
        Stream.find fuel s p w = Some (Ret (Either.right e), w'))
    /\ (forall (fuel : nat) (l : list A) (w' : W),
        Stream.reduce fuel s (observing p) [] w
        = Some (Ret ((fun x => (x, false)) <$> l), w') ->
        Stream.find fuel s p w
        = Some (Ret (Either.left "No element found"), w'))
    /\ (forall (goes_on : Stream.Iterator W A -> W -> Prop)
               (it : Stream.Iterator W A) (w0 : W),
        Stream.source s w = (Ret it, w0) ->
        goes_on it w0 ->
        (forall it1 w1,
            goes_on it1 w1 ->
            match Stream.step it1 w1 with
            | (Ret (Stream.Yield x it2), w2) =>
                exists w3, p x w2 = (Ret false, w3) /\ goes_on it2 w3
            | (Ret (Stream.Skip it2), w2) => goes_on it2 w2
            | _ => False
            end) ->
        forall fuel : nat, Stream.find fuel s p w = None).
Proof.
  intros W A s p w. split; [|split].
  - intros fuel earlier e w' Hl.
    unfold Stream.reduce, Stream.find in *.
    cbn [Stream.take Stream.source] in Hl. unfold Py.bind in Hl.
    destruct (Stream.source s w) as [[items|x] w1]; [|discriminate].
    destruct ((0 <=? Z.of_nat (S (length earlier)))
              && (Z.of_nat (S (length earlier)) <=? Stream.sys_maxsize)).
    + cbn [ret] in Hl. rewrite Nat2Z.id in Hl.
      now apply find_loop_first with (seen := []) (earlier := earlier).
    + destruct ((- Stream.sys_maxsize - 1 <=? Z.of_nat (S (length earlier)))
                && (Z.of_nat (S (length earlier)) <=? -2)); discriminate.
  - intros fuel l w' Hl.
    unfold Stream.reduce, Stream.find in *.
    destruct (Stream.source s w) as [[items|x] w1]; [|discriminate].
    now apply find_loop_none with (seen := []) (l := l).
  - intros goes_on it w0 Hs Hit Hinv fuel.
    unfold Stream.find. rewrite Hs.
    now apply find_loop_never with (goes_on := goes_on).
Qed.

Lemma find_first_match_or_No_element_found_witness :
  Stream.find 6 (Stream.of_ [1; 2; 3; 4; 5]) (fun x => ret (3 <? x)) tt
  = Some (Ret (Either.right 4), tt)
  /\ Stream.find 6 (Stream.range 0 None 1) (logged (fun x => ret (3 <? x))) (tt, [])
     = Some (Ret (Either.right 4), (tt, [0; 1; 2; 3; 4]))
  /\ Stream.find 6 (Stream.of_ [1; 2; 3; 4; 5]) (fun x => ret (10 <? x)) tt
     = Some (Ret (Either.left "No element found"), tt)
  /\ Stream.find 1 (Stream.from_iterable []) (fun x : Z => ret true) tt
     = Some (Ret (Either.left "No element found"), tt)
  /\ (forall fuel : nat,
        Stream.find fuel (Stream.range 0 None 1) (logged (fun x : Z => ret false))
          (tt, [])
        = None).
Proof.
  split; [|split; [|split; [|split]]].
  - apply (proj1 (find_first_match_or_No_element_found unit Z
                    (Stream.of_ [1; 2; 3; 4; 5]) (fun x => ret (3 <? x)) tt)
             6%nat [1; 2; 3] 4 tt).
    reflexivity.
  - apply (proj1 (find_first_match_or_No_element_found (unit * list Z) Z
                    (Stream.range 0 None 1) (logged (fun x => ret (3 <? x))) (tt, []))
             6%nat [0; 1; 2; 3] 4 (tt, [0; 1; 2; 3; 4])).
    reflexivity.
  - apply (proj1 (proj2 (find_first_match_or_No_element_found unit Z
                           (Stream.of_ [1; 2; 3; 4; 5]) (fun x => ret (10 <? x)) tt))
             6%nat [1; 2; 3; 4; 5] tt).
    reflexivity.
  - apply (proj1 (proj2 (find_first_match_or_No_element_found unit Z
                           (Stream.from_iterable []) (fun _ => ret true) tt))
             1%nat [] tt).
    reflexivity.
  - apply (proj2 (proj2 (find_first_match_or_No_element_found (unit * list Z) Z
                           (Stream.range 0 None 1)
                           (logged (fun x : Z => ret false)) (tt, [])))
             (fun it _ => exists n, it = Stream.count n 1)
             (Stream.count 0 1) (tt, [])).
    + reflexivity.
    + now exists 0.
    + intros it1 [[] log] [n ->]. cbn.
      eexists. split; [reflexivity|]. now exists (n + 1).
Defined.

(** C7 as stated fails twice: the message of the failure is
    ["No element found"], not ["no element found"], and on an unbounded
    stream without a matching element [find] does not return at all. *)
Lemma find_failure_message_counterexample :
  (forall fuel : nat,
      Stream.find fuel (Stream.from_iterable []) (fun x : Z => ret true) tt
      <> Some (Ret (Either.left "no element found"), tt))
  /\ (forall fuel : nat,
      Stream.find fuel (Stream.range 0 None 1) (fun x : Z => ret false) tt = None).
Proof.
  split.
  - intros [|fuel]; [discriminate|]. cbn. discriminate.
  - intros fuel. unfold Stream.find. cbn [Stream.range Stream.source ret].
    apply find_loop_never with (goes_on := fun it _ => exists n, it = Stream.count n 1).
    + intros it w [n ->]. cbn. eexists. split; [reflexivity|]. now exists (n + 1).
    + now exists 0.
Qed.

(** ** Requests and their streams ([HttpStream]) *)

Section HttpFacts.
Import HttpStream.
Context {X : Type}.

(** [add_headers] assigns to the [headers] field of the request object
    it is given and returns that same object. *)
Lemma add_headers_assigns (hs : gmap string string) (l : ref) (r : HttpRequest)
    (w : World X) :
  objects w !! l = Some r ->
  add_headers hs l w
  = (Ret l,
     mkWorld (<[l := mkHttpRequest (url r) (method r)
                       (Some (hs ∪ default ∅ (headers r)))
                       (params r) (body r) (timeout r)]> (objects w))
             (outside w)).
Proof.
  intros Hl. unfold add_headers, Py.bind, read_request, set_headers.
  now rewrite Hl, Hl.
Qed.

(** The effect of [http_request] has an error boundary around all of
    it: what its run raises is not an instance of [Exception], and it is
    what the transport raised. *)
Lemma http_request_raises transport (req : ref) (w w' : World X) (e : Exception) :
  IO.run (http_request transport req) w = (Raise e, w') ->
  isinstance e "Exception" = false
  /\ exists rq x', objects w !! req = Some rq
                   /\ transport (method rq) (url rq)
                        (mkKwargs (timeout rq) (default ∅ (headers rq))
                           (default ∅ (params rq))
                           (match body rq with Some (JsonBody c) => Some c | _ => None end)
                           (match body rq with Some (DataBody c) => Some c | _ => None end))
                        (outside w)
                      = (Raise e, x').
Proof.
  unfold IO.run, http_request, try_except, Py.bind, read_request, call_outside.
  cbn [IO.effect].
  destruct (objects w !! req) as [rq|] eqn:Hreq; [|discriminate].
  destruct (transport _ _ _ _) as [[resp|e0] x'] eqn:Htr; [discriminate|].
  destruct (isinstance e0 "Exception") eqn:He0; [discriminate|].
  intros [= <- _]. split; [exact He0|]. now exists rq, x'.
Qed.

(** With a transport that only raises instances of [Exception], the
    run always returns an [Either]. *)
Lemma http_request_returns transport (req : ref) (w : World X) :
  (forall m u k x e x', transport m u k x = (Raise e, x') ->
                        isinstance e "Exception" = true) ->
  exists r w', IO.run (http_request transport req) w = (Ret r, w').
Proof.
  intros Htr.
  destruct (IO.run (http_request transport req) w) as [[r|e] w'] eqn:Hrun;
    [now exists r, w'|].
  apply http_request_raises in Hrun as (He & rq & x' & _ & Hcall).
  rewrite (Htr _ _ _ _ _ _ Hcall) in He. discriminate.
Qed.
End HttpFacts.

(** C8, evaluated on [s = HttpStream.from_urls(["http://a"])] and
    [s.with_headers({"Accept": "application/json"})].  The call
    [with_headers] itself runs nothing.  Traversing the stream it returns
    hands out the request object of [s] itself, number [0], and has
    assigned to its [headers] field: read through [s], the request had no
    headers before and has the new ones afterwards. *)
Theorem with_headers_assigns_to_the_requests_of_its_input :
  exists (s : HttpStream.HttpStream unit) (w0 w1 : HttpStream.World unit),
    HttpStream.from_urls ["http://a"] (HttpStream.mkWorld ∅ tt) = (Ret s, w0)
    /\ Stream.to_list 2 (HttpStream.requests s) w0 = Some (Ret [O], w0)
    /\ HttpStream.headers <$> HttpStream.objects w0 !! O = Some None
    /\ Stream.to_list 2
         (HttpStream.requests
            (HttpStream.with_headers s {[ "Accept" := "application/json" ]})) w0
       = Some (Ret [O], w1)
    /\ Stream.to_list 2 (HttpStream.requests s) w1 = Some (Ret [O], w1)
    /\ HttpStream.headers <$> HttpStream.objects w1 !! O
       = Some (Some {[ "Accept" := "application/json" ]}).
Proof.
  eexists _, _, _. split; [reflexivity|].
  split; [reflexivity|]. split; [reflexivity|].
  split; [vm_compute; reflexivity|].
  split; [reflexivity|]. vm_compute. reflexivity.
Qed.

(** *** The pool of [execute_parallel] *)

Section PoolFacts.
Import HttpStream.
Context {X : Type}.
Context (transport : HttpMethod -> string -> Kwargs -> Py X RawResponse).
Context (requests_list : list ref).

Lemma submit_all_numbers (w : World X) :
  (queued (submit_all requests_list w)).*1 = seq 0 (length requests_list).
Proof.
  cbn [submit_all queued]. rewrite fmap_imap.
  rewrite <- (list_fmap_id (seq 0 (length requests_list))).
  apply (imap_seq_0 requests_list (fun j => j)).
Qed.

Lemma pool_inv_submit_all (w : World X) :
  pool_inv transport requests_list (submit_all requests_list w).
Proof.
  split; [|split; [|split; [|split]]].
  - rewrite submit_all_numbers. cbn. now rewrite app_nil_r.
  - cbn [submit_all queued active]. rewrite app_nil_r.
    apply Forall_forall. intros [i req] Hin.
    apply list_elem_of_lookup in Hin as [k Hk].
    rewrite list_lookup_imap in Hk.
    destruct (requests_list !! k) as [req'|] eqn:Hreq; [|discriminate].
    cbn in Hk. injection Hk as <- <-. exact Hreq.
  - constructor.
  - intros _. constructor.
  - intros e. discriminate.
Qed.

Lemma pool_inv_step (max_workers : Z) (p p' : Pool X) :
  pool_inv transport requests_list p ->
  pool_step transport max_workers p p' ->
  pool_inv transport requests_list p'.
Proof.
  intros (Hperm & Hreqs & Hun & Hres & Hraised) Hstep.
  assert (Hnodup : NoDup ((queued p).*1 ++ (active p).*1 ++ unyielded p ++ yielded p))
    by (rewrite Hperm; apply NoDup_seq).
  destruct Hstep as [p t q Hq Hlt | p i req a1 a2 o w' Ha Hrun
                    | p i u1 u2 r Hnone Hu Hi | p i u1 u2 e Hnone Hu Hi];
    unfold pool_inv;
    cbn [queued active finished unyielded yielded results raised world].
  - (* a worker takes the next queued call *)
    rewrite Hq in *. split; [|split; [|split; [|split]]]; try assumption.
    + rewrite <- Hperm, fmap_app. cbn [fmap list_fmap]. solve_Permutation.
    + rewrite Forall_app in *. rewrite Forall_cons in Hreqs.
      rewrite Forall_app, Forall_singleton. tauto.
  - (* a call finishes: its future is new among the done ones *)
    rewrite Ha in *. rewrite fmap_app in Hperm, Hnodup.
    cbn [fmap list_fmap fst] in Hperm, Hnodup.
    assert (Hreq : requests_list !! i = Some req).
    { rewrite Forall_app, Forall_app in Hreqs.
      destruct Hreqs as (_ & _ & Hreq). now apply Forall_cons in Hreq as [Hreq _]. }
    assert (Hfresh : forall j, j ∈ unyielded p ++ yielded p -> j ≠ i).
    { intros j Hj ->.
      rewrite !NoDup_app in Hnodup.
      destruct Hnodup as (_ & _ & _ & Hdisj & _).
      apply (Hdisj i); [set_solver | exact Hj]. }
    split; [|split; [|split; [|split]]].
    + rewrite <- Hperm, fmap_app. solve_Permutation.
    + rewrite !Forall_app in *. rewrite Forall_cons in Hreqs. tauto.
    + apply Forall_app. split.
      * apply Forall_forall. intros j Hj.
        rewrite Forall_forall in Hun. destruct (Hun j Hj) as (oj & Hoj & Hsub).
        exists oj. split; [|exact Hsub].
        rewrite lookup_insert_ne; [exact Hoj|].
        intros ->. apply (Hfresh j); [set_solver | reflexivity].
      * apply Forall_singleton. exists o. split; [apply lookup_insert_eq|].
        now exists req, (world p), w'.
    + intros Hnone. specialize (Hres Hnone).
      apply Forall2_same_length_lookup in Hres as [Hlen Hres].
      apply Forall2_same_length_lookup. split; [exact Hlen|].
      intros k j rj Hj Hk. destruct (Hres k j rj Hj Hk) as [Hrj Hsub].
      split; [|exact Hsub].
      rewrite lookup_insert_ne; [exact Hrj|].
      intros ->. apply (Hfresh j); [|reflexivity].
      apply elem_of_app. right. eapply list_elem_of_lookup_2, Hj.
    + exact Hraised.
  - (* [as_completed] hands out a finished future and it holds a value *)
    rewrite Hu in *. split; [|split; [|split; [|split]]]; try assumption.
    + rewrite <- Hperm. solve_Permutation.
    + rewrite Forall_app, Forall_cons in Hun. apply Forall_app. tauto.
    + intros _. apply Forall2_app; [exact (Hres Hnone)|].
      rewrite Forall_app, Forall_cons in Hun.
      destruct Hun as (_ & (o & Ho & Hsub) & _).
      rewrite Hi in Ho. injection Ho as <-.
      constructor; [now split | constructor].
  - (* it holds what the call raised *)
    rewrite Hu in *. split; [|split; [|split; [|split]]]; try assumption.
    + rewrite <- Hperm. solve_Permutation.
    + rewrite Forall_app, Forall_cons in Hun. apply Forall_app. tauto.
    + discriminate.
    + intros e' [= <-].
      rewrite Forall_app, Forall_cons in Hun.
      destruct Hun as (_ & (o & Ho & Hsub) & _).
      rewrite Hi in Ho. injection Ho as <-. now exists i.
Qed.

(** Every step is a step forward. *)
Lemma pool_step_measure (max_workers : Z) (p p' : Pool X) :
  pool_step transport max_workers p p' -> (pool_measure p' < pool_measure p)%nat.
Proof.
  intros [p0 t q Hq Hlt | p0 i req a1 a2 o w' Ha Hrun
         | p0 i u1 u2 r Hnone Hu Hi | p0 i u1 u2 e Hnone Hu Hi];
    unfold pool_measure; cbn [queued active unyielded].
  - rewrite Hq, length_app. cbn [length]. lia.
  - rewrite Ha, !length_app. cbn [length]. lia.
  - rewrite Hu, !length_app. cbn [length]. lia.
  - rewrite Hu, !length_app. cbn [length]. lia.
Qed.

Lemma pool_nsteps_measure (max_workers : Z) :
  forall (n : nat) (p p' : Pool X),
    nsteps (pool_step transport max_workers) n p p' ->
    (pool_measure p' + n <= pool_measure p)%nat.
Proof.
  intros n p p' Hrun. induction Hrun as [|n p p1 p' Hstep _ IH]; [lia|].
  apply pool_step_measure in Hstep. lia.
Qed.

Lemma pool_measure_submit_all (w : World X) :
  pool_measure (submit_all requests_list w) = (3 * length requests_list)%nat.
Proof.
  unfold pool_measure. cbn [submit_all queued active unyielded length].
  rewrite length_imap. lia.
Qed.

(** With at least one worker, a pool has ended or can go on. *)
Lemma pool_ended_or_step (max_workers : Z) (p : Pool X) :
  1 <= max_workers -> pool_inv transport requests_list p ->
  pool_ended p \/ exists p', pool_step transport max_workers p p'.
Proof.
  intros Hmax (_ & _ & Hun & _).
  destruct (active p) as [|[i req] a] eqn:Ha.
  - destruct (queued p) as [|t q] eqn:Hq.
    + destruct (raised p) as [e|] eqn:Hraised.
      { left. unfold pool_ended. rewrite Hq, Ha, Hraised.
        split; [reflexivity|]. split; [reflexivity | discriminate]. }
      destruct (unyielded p) as [|i u] eqn:Hu.
      { left. unfold pool_ended. now rewrite Hq, Ha, Hu. }
      right. apply Forall_cons in Hun as [(o & Ho & _) _].
      destruct o as [r|e].
      * eexists. apply future_yielded with (i := i) (u1 := []) (u2 := u) (r := r);
          [exact Hraised | exact Hu | exact Ho].
      * eexists. apply future_raises with (i := i) (u1 := []) (u2 := u) (e := e);
          [exact Hraised | exact Hu | exact Ho].
    + right. eexists. apply worker_starts with (t := t) (q := q); [exact Hq|].
      rewrite Ha. cbn [length]. lia.
  - right.
    destruct (IO.run (http_request transport req) (world p)) as [o w'] eqn:Hrun.
    eexists. apply call_finishes with (i := i) (req := req) (a1 := []) (a2 := a);
      [exact Ha | exact Hrun].
Qed.

Lemma pool_progress (max_workers : Z) (p : Pool X) :
  1 <= max_workers -> pool_inv transport requests_list p -> ~ pool_ended p ->
  exists p', pool_step transport max_workers p p'.
Proof.
  intros Hmax Hinv Hgo.
  destruct (pool_ended_or_step max_workers p Hmax Hinv) as [Hend|Hstep];
    [contradiction | exact Hstep].
Qed.

(** So some schedule takes the pool to its end. *)
Lemma pool_can_end (max_workers : Z) :
  1 <= max_workers ->
  forall (m : nat) (p : Pool X),
    (pool_measure p <= m)%nat -> pool_inv transport requests_list p ->
    exists final, rtc (pool_step transport max_workers) p final /\ pool_ended final.
Proof.
  intros Hmax. induction m as [|m IH]; intros p Hm Hinv.
  - exists p. split; [apply rtc_refl|].
    unfold pool_measure in Hm. unfold pool_ended.
    destruct (queued p), (active p), (unyielded p); cbn [length] in Hm; try lia.
    auto.
  - destruct (pool_ended_or_step max_workers p Hmax Hinv) as [Hend|[p' Hstep]].
    + exists p. split; [apply rtc_refl | exact Hend].
    + destruct (IH p') as (final & Hrun & Hend).
      * apply pool_step_measure in Hstep. lia.
      * eapply pool_inv_step; eassumption.
      * exists final. split; [eapply rtc_l; eassumption | exact Hend].
Qed.

Lemma pool_inv_run (max_workers : Z) (p final : Pool X) :
  pool_inv transport requests_list p ->
  rtc (pool_step transport max_workers) p final ->
  pool_inv transport requests_list final.
Proof.
  intros Hinv Hrun. induction Hrun as [|p p' final Hstep _ IH]; [exact Hinv|].
  apply IH. eapply pool_inv_step; eassumption.
Qed.

(** At the end either every submission number has been handed out and
    [results] has the value of each, or a call has raised what is now
    raised. *)
Lemma pool_inv_ended (final : Pool X) :
  pool_inv transport requests_list final -> pool_ended final ->
  match pool_outcome final with
  | (Ret rs, _) =>
      rs = results final
      /\ length rs = length requests_list
      /\ yielded final ≡ₚ seq 0 (length requests_list)
      /\ Forall2 (result_of_submission transport requests_list) (yielded final) rs
  | (Raise e, _) =>
      isinstance e "Exception" = false
      /\ exists i, outcome_of_submission transport requests_list i (Raise e)
  end.
Proof.
  intros (Hperm & _ & _ & Hres & Hraised) (Hq & Ha & Hu).
  unfold pool_outcome. destruct (raised final) as [e|] eqn:Hr.
  - destruct (Hraised e eq_refl) as (i & req & w & w' & Hreq & Hrun).
    split; [eapply http_request_raises, Hrun|].
    now exists i, req, w, w'.
  - specialize (Hres eq_refl). rewrite Hq, Ha, (Hu eq_refl) in Hperm. cbn in Hperm.
    split; [reflexivity|]. split; [|split].
    + rewrite <- (Forall2_length _ _ _ Hres), Hperm. apply length_seq.
    + exact Hperm.
    + eapply Forall2_impl; [exact Hres|]. now intros i r [_ Hsub].
Qed.

(** With a transport that only raises instances of [Exception] no future
    holds an error, and nothing is raised out of the loop. *)
Lemma pool_inv_not_raised (final : Pool X) :
  (forall m u k x e x', transport m u k x = (Raise e, x') ->
                        isinstance e "Exception" = true) ->
  pool_inv transport requests_list final -> raised final = None.
Proof.
  intros Htr (_ & _ & _ & _ & Hraised).
  destruct (raised final) as [e|] eqn:Hr; [|reflexivity].
  destruct (Hraised e eq_refl) as (i & req & w & w' & _ & Hrun).
  destruct (http_request_returns transport req w Htr) as (r & w'' & Hret).
  rewrite Hret in Hrun. discriminate.
Qed.
End PoolFacts.

(** C9, as the code has it.  [execute_parallel] on a stream of N
    requests and at least one worker.  Whatever the order in which the
    calls finish and their futures are handed out, the pool is never
    stuck before its end and reaches it within [3 * N] steps.  A run that
    has come to its end returns a list of exactly N results, the futures
    handed out being the N submitted ones, each once, and every result the
    value returned by the call submitted for its request; or it raises
    what one of the calls raised, which is then not an instance of
    [Exception], those being kept as results by [http_request].  With a
    transport that only raises instances of [Exception] every run
    returns. *)
Theorem execute_parallel_one_result_per_request :
  forall (X : Type)
         (transport : HttpStream.HttpMethod -> string -> HttpStream.Kwargs
                      -> Py X HttpStream.RawResponse)
         (self : HttpStream.HttpStream X) (max_workers : Z) (fuel : nat)
         (w w1 : HttpStream.World X) (requests_list : list HttpStream.ref),
    1 <= max_workers ->
    Stream.to_list fuel (HttpStream.requests self) w = Some (Ret requests_list, w1) ->
    (forall (n : nat) (p : HttpStream.Pool X),
        nsteps (HttpStream.pool_step transport max_workers) n
          (HttpStream.submit_all requests_list w1) p ->
        (n <= 3 * length requests_list)%nat
        /\ (~ HttpStream.pool_ended p ->
            exists p', HttpStream.pool_step transport max_workers p p'))
    /\ (exists final, HttpStream.execute_parallel transport self max_workers fuel w final)
    /\ (forall final,
          HttpStream.execute_parallel transport self max_workers fuel w final ->
          match HttpStream.pool_outcome final with
          | (Ret rs, _) =>
              rs = HttpStream.results final
              /\ length rs = length requests_list
              /\ HttpStream.yielded final ≡ₚ seq 0 (length requests_list)
              /\ Forall2 (result_of_submission transport requests_list)
                   (HttpStream.yielded final) rs
          | (Raise e, _) =>
              isinstance e "Exception" = false
              /\ exists i, outcome_of_submission transport requests_list i (Raise e)
          end)
    /\ ((forall m u k x e x', transport m u k x = (Raise e, x') ->
                              isinstance e "Exception" = true) ->
        forall final,
          HttpStream.execute_parallel transport self max_workers fuel w final ->
          HttpStream.pool_outcome final
          = (Ret (HttpStream.results final), HttpStream.world final)
          /\ length (HttpStream.results final) = length requests_list).
Proof.
  intros X transport self max_workers fuel w w1 requests_list Hmax Hlist.
  assert (Hfinal : forall final,
    HttpStream.execute_parallel transport self max_workers fuel w final ->
    pool_inv transport requests_list final /\ HttpStream.pool_ended final).
  { intros final (_ & requests_list' & w1' & Hlist' & Hrun & Hend).
    rewrite Hlist in Hlist'. injection Hlist' as <- <-.
    split; [|exact Hend].
    eapply pool_inv_run; [|exact Hrun]. apply pool_inv_submit_all. }
  split; [|split; [|split]].
  - intros n p Hrun. split.
    + pose proof (pool_nsteps_measure transport max_workers n _ _ Hrun) as Hm.
      rewrite pool_measure_submit_all in Hm. lia.
    + apply (pool_progress transport requests_list); [exact Hmax|].
      eapply pool_inv_run; [apply pool_inv_submit_all|].
      eapply rtc_nsteps_2, Hrun.
  - destruct (pool_can_end transport requests_list max_workers Hmax
                (pool_measure (HttpStream.submit_all requests_list w1))
                (HttpStream.submit_all requests_list w1) (Nat.le_refl _)
                (pool_inv_submit_all transport requests_list w1))
      as (final & Hrun & Hend).
    exists final. split; [exact Hmax|]. now exists requests_list, w1.
  - intros final Hexec. destruct (Hfinal final Hexec) as [Hinv Hend].
    now apply pool_inv_ended.
  - intros Htr final Hexec. destruct (Hfinal final Hexec) as [Hinv Hend].
    pose proof (pool_inv_ended transport requests_list final Hinv Hend) as Hout.
    unfold HttpStream.pool_outcome in *.
    rewrite (pool_inv_not_raised transport requests_list final Htr Hinv) in *.
    split; [reflexivity | tauto].
Qed.

Lemma execute_parallel_one_result_per_request_witness :
  (exists final,
      HttpStream.execute_parallel ok_transport three_requests 2 4
        three_requests_world final)
  /\ (forall final,
        HttpStream.execute_parallel ok_transport three_requests 2 4
          three_requests_world final ->
        HttpStream.pool_outcome final
        = (Ret (HttpStream.results final), HttpStream.world final)
        /\ length (HttpStream.results final) = 3%nat).
Proof.
  destruct (execute_parallel_one_result_per_request unit ok_transport three_requests
              2 4 three_requests_world three_requests_world [0; 1; 2]%nat
              ltac:(lia) eq_refl) as (_ & Hex & _ & Hall).
  split; [exact Hex|]. apply Hall. intros m u k x e x'. discriminate.
Defined.

(** C9 as stated fails: when the transport is interrupted, the future of
    the call holds the [KeyboardInterrupt], [future.result()] raises it
    and the run raises instead of returning a list of results. *)
Lemma execute_parallel_raises_counterexample :
  exists final,
    HttpStream.execute_parallel interrupted_transport one_request 1 2
      three_requests_world final
    /\ HttpStream.pool_outcome final = (Raise KeyboardInterrupt, three_requests_world).
Proof.
  eexists. split; [split; [lia|]|].
  - exists [O], three_requests_world. split; [reflexivity|]. split.
    + eapply rtc_l.
      { apply (HttpStream.worker_starts interrupted_transport 1
                 (HttpStream.submit_all [O] three_requests_world) (O, O) []);
          [reflexivity | cbn; lia]. }
      eapply rtc_l.
      { apply (HttpStream.call_finishes interrupted_transport 1 _ O O [] []
                 (Raise KeyboardInterrupt) three_requests_world);
          [reflexivity | reflexivity]. }
      eapply rtc_l.
      { apply (HttpStream.future_raises interrupted_transport 1 _ O [] []
                 KeyboardInterrupt); [reflexivity | reflexivity | reflexivity]. }
      apply rtc_refl.
    + split; [reflexivity|]. split; [reflexivity | discriminate].
  - reflexivity.
Qed.

(* ===================================================================== *)
(** * Part III: further properties of the code                            *)
(* ===================================================================== *)

(** ** [Either]: laws and error handling *)

(** X1. [Either.bind] satisfies the two other monad laws the base class
    asks for: [m.bind(pure)] is [m], and binding [f] then [g] is binding
    [lambda x: f(x).bind(g)], whatever [f] and [g] do to the world or
    raise. *)
Theorem either_bind_right_identity_and_associativity :
  forall (W E A B C : Type) (m : Either.Either E A)
         (f : A -> Py W (Either.Either E B)) (g : B -> Py W (Either.Either E C))
         (w : W),
    Either.bind m (fun a => ret (Either.pure a)) w = (Ret m, w)
    /\ (m' <~ Either.bind m f; Either.bind m' g) w
       = Either.bind m (fun x => m' <~ f x; Either.bind m' g) w.
Proof.
  intros W E A B C m f g w. split.
  - destruct m; reflexivity.
  - destruct m as [e|v]; [reflexivity|].
    cbn [Either.bind]. unfold Py.bind. reflexivity.
Qed.

(** X2. [Either.map] is a functor up to exceptions: mapping the identity
    changes nothing, and [m.map(f).map(g)] is [m.map] of [g] after [f]:
    when [f] raises, [g] is never called and the result is the same in
    both, the [Left] of the error when it is an instance of [Exception]. *)
Theorem either_map_identity_and_composition :
  forall (W E A B C : Type) `(Either.HoldsException E) (m : Either.Either E A)
         (f : A -> Py W B) (g : B -> Py W C) (w : W),
    Either.map m (fun a => ret a) w = (Ret m, w)
    /\ (m' <~ Either.map m f; Either.map m' g) w
       = Either.map m (fun a => b <~ f a; g b) w.
Proof.
  intros W E A B C HE m f g w. split.
  - destruct m; reflexivity.
  - destruct m as [e|v]; [reflexivity|].
    cbn [Either.map]. unfold try_except, Py.bind.
    destruct (f v w) as [[b|x] w1].
    + cbn [ret Either.map]. unfold try_except, Py.bind.
      destruct (g b w1) as [[c|x] w2]; [reflexivity|].
      destruct (isinstance x "Exception"); reflexivity.
    + destruct (isinstance x "Exception"); reflexivity.
Qed.

(** X3. [recover] with a handler that does not raise ends every failure
    that [map] has caught: [m.map(f).recover(h)] returns a [Right], unless
    [m] is a [Right] and [f] raises on its value something that is not an
    instance of [Exception], which [map] lets through.  So it returns a
    [Right] whenever [f] only raises instances of [Exception]; and when
    [m] is a [Right] and [f] returns [b], it is the [Right] of [b], in
    the world [f] left. *)
Theorem either_map_recover_is_right :
  forall (W A B : Type) (m : Either.Either Exception A) (f : A -> Py W B)
         (h : Exception -> W -> B * W) (w : W),
    ((exists (b : B) (w' : W),
         (m' <~ Either.map m f; Either.recover m' (total h)) w
         = (Ret (Either.Right b), w'))
     \/ (exists (v : A) (x : Exception) (w' : W),
           m = Either.Right v /\ f v w = (Raise x, w')
           /\ isinstance x "Exception" = false
           /\ (m' <~ Either.map m f; Either.recover m' (total h)) w
              = (Raise x, w')))
    /\ ((forall (v : A) (x : Exception) (w' : W),
            f v w = (Raise x, w') -> isinstance x "Exception" = true) ->
        exists (b : B) (w' : W),
          (m' <~ Either.map m f; Either.recover m' (total h)) w
          = (Ret (Either.Right b), w'))
    /\ (forall (v : A) (b : B) (w1 : W),
          m = Either.Right v -> f v w = (Ret b, w1) ->
          (m' <~ Either.map m f; Either.recover m' (total h)) w
          = (Ret (Either.Right b), w1)).
Proof.
  intros W A B m f h w.
  assert (Hcases :
    (exists (b : B) (w' : W),
        (m' <~ Either.map m f; Either.recover m' (total h)) w
        = (Ret (Either.Right b), w'))
    \/ (exists (v : A) (x : Exception) (w' : W),
          m = Either.Right v /\ f v w = (Raise x, w')
          /\ isinstance x "Exception" = false
          /\ (m' <~ Either.map m f; Either.recover m' (total h)) w
             = (Raise x, w'))).
  { destruct m as [e|v]; cbn [Either.map]; unfold try_except, Py.bind, total.
    - left. cbn [ret Either.recover]. unfold try_except, Py.bind.
      destruct (h e w) as [b w']. now exists b, w'.
    - destruct (f v w) as [[b|x] w1] eqn:Hf; cbn [ret Either.recover].
      + left. now exists b, w1.
      + destruct (isinstance x "Exception") eqn:Hx.
        * left. cbn [ret Either.recover].
          unfold try_except, Py.bind, Either.of_exception, Either.Exception_holds.
          destruct (h x w1) as [b w']. now exists b, w'.
        * right. now exists v, x, w1. }
  split; [exact Hcases|]. split.
  - intros Hf. destruct Hcases as [Hret|(v & x & w' & _ & Hfv & Hx & _)];
      [exact Hret|].
    rewrite (Hf v x w' Hfv) in Hx. discriminate.
  - intros v b w1 -> Hf. cbn [Either.map]. unfold try_except, Py.bind.
    now rewrite Hf.
Qed.

Lemma either_map_recover_is_right_witness :
  (m' <~ Either.map (Either.Right 3) (fun x : Z => ret (W := unit) (x + 1));
   Either.recover m' (total (fun _ w => (0, w)))) tt
  = (Ret (Either.Right 4), tt)
  /\ exists (b : Z) (w' : unit),
       (m' <~ Either.map (Either.Right 3) (fun _ : Z => raise (A := Z) boom);
        Either.recover m' (total (fun _ w => (0, w)))) tt
       = (Ret (Either.Right b), w').
Proof.
  split.
  - apply (proj2 (proj2 (either_map_recover_is_right unit Z Z (Either.Right 3)
                           (fun x => ret (x + 1)) (fun _ w => (0, w)) tt)) 3 4 tt);
      reflexivity.
  - apply (proj1 (proj2 (either_map_recover_is_right unit Z Z (Either.Right 3)
                           (fun _ => raise boom) (fun _ w => (0, w)) tt))).
    intros v x w' [= <- _]. reflexivity.
Defined.

(** X4. [or_else] keeps the first [Right]: it is associative, a [Left]
    is neutral on both sides of it as far as success goes, and reading a
    value with a default is the same as falling back on a [Right] of that
    default first. *)
Theorem either_or_else_first_right :
  forall (E A : Type) (a b c : Either.Either E A) (d x : A),
    Either.or_else (Either.or_else a b) c = Either.or_else a (Either.or_else b c)
    /\ Either.is_right (Either.or_else a b)
       = Either.is_right a || Either.is_right b
    /\ Either.get_or_else (Either.or_else a (Either.right d)) x
       = Either.get_or_else a d.
Proof.
  intros E A a b c d x. destruct a, b; repeat split.
Qed.

(** ** [IO]: laws, error handling, lists of effects *)

(** X5. [IO.bind] satisfies the two other monad laws under [run()]:
    running [m.bind(IO.pure)] is running [m], and running
    [m.bind(f).bind(g)] is running [m.bind(lambda x: f(x).bind(g))], with
    the same effects in the same order and the same exception, if any. *)
Theorem io_bind_right_identity_and_associativity :
  forall (W A B C : Type) (m : IO.IO W A)
         (f : A -> Py W (IO.IO W B)) (g : B -> Py W (IO.IO W C)) (w : W),
    IO.run (IO.bind m (fun a => ret (IO.pure a))) w = IO.run m w
    /\ IO.run (IO.bind (IO.bind m f) g) w
       = IO.run (IO.bind m (fun x => io <~ f x; ret (IO.bind io g))) w.
Proof.
  intros W A B C m f g w. unfold IO.run, IO.bind, IO.pure, Py.bind.
  cbn [IO.effect]. split.
  - destruct (IO.effect m w) as [[a|e] w1]; reflexivity.
  - destruct (IO.effect m w) as [[a|e] w1]; [|reflexivity].
    destruct (f a w1) as [[io|e] w2]; [|reflexivity].
    cbn [ret IO.effect]. unfold IO.run. cbn [IO.effect].
    destruct (IO.effect io w2) as [[b|e] w3]; reflexivity.
Qed.

(** X6. [IO.map] is a functor under [run()] and is [bind] with
    [IO.pure]: mapping the identity changes nothing, [m.map(f).map(g)]
    runs like [m.map] of [g] after [f], and [m.map(f)] runs like
    [m.bind(lambda x: IO.pure(f(x)))]. *)
Theorem io_map_functor_and_bind_pure :
  forall (W A B C : Type) (m : IO.IO W A) (f : A -> Py W B) (g : B -> Py W C)
         (w : W),
    IO.run (IO.map m (fun a => ret a)) w = IO.run m w
    /\ IO.run (IO.map (IO.map m f) g) w
       = IO.run (IO.map m (fun a => b <~ f a; g b)) w
    /\ IO.run (IO.map m f) w
       = IO.run (IO.bind m (fun a => b <~ f a; ret (IO.pure b))) w.
Proof.
  intros W A B C m f g w. unfold IO.run, IO.map, IO.bind, IO.pure, Py.bind.
  cbn [IO.effect]. repeat split.
  - destruct (IO.effect m w) as [[a|e] w1]; reflexivity.
  - destruct (IO.effect m w) as [[a|e] w1]; [|reflexivity].
    destruct (f a w1) as [[b|e] w2]; reflexivity.
  - destruct (IO.effect m w) as [[a|e] w1]; [|reflexivity].
    destruct (f a w1) as [[b|e] w2]; reflexivity.
Qed.

(** X7. [recover] with a handler that does not raise absorbs what
    [except Exception] catches: its run returns the closure's value, the
    handler untouched, when the closure returns, and the handler's value
    for the raised error when that is an instance of [Exception];
    otherwise the run raises what the closure raised.  So the run never
    raises when the closure only raises instances of [Exception].  In
    every case it is the same as [attempt()] followed by reading the
    [Either] with the handler as fallback; for a constant fallback [d],
    [io.attempt().map(lambda r: r.get_or_else(d))]. *)
Theorem io_recover_absorbs_errors :
  forall (W A : Type) (io : IO.IO W A) (h : Exception -> W -> A * W) (d : A)
         (w : W),
    ((exists (a : A) (w' : W),
         IO.run (IO.recover io (total h)) w = (Ret a, w'))
     \/ (exists (x : Exception) (w' : W),
           IO.run io w = (Raise x, w') /\ isinstance x "Exception" = false
           /\ IO.run (IO.recover io (total h)) w = (Raise x, w')))
    /\ ((forall (x : Exception) (w' : W),
            IO.run io w = (Raise x, w') -> isinstance x "Exception" = true) ->
        exists (a : A) (w' : W),
          IO.run (IO.recover io (total h)) w = (Ret a, w'))
    /\ IO.run (IO.recover io (total h)) w
       = IO.run (IO.map (IO.attempt io)
                   (fun r => match r with
                             | Either.Right v => ret v
                             | Either.Left x => total h x
                             end)) w
    /\ IO.run (IO.recover io (fun _ => ret d)) w
       = IO.run (IO.map (IO.attempt io)
                   (fun r => ret (Either.get_or_else r d))) w.
Proof.
  intros W A io h d w.
  assert (Hcases :
    (exists (a : A) (w' : W),
        IO.run (IO.recover io (total h)) w = (Ret a, w'))
    \/ (exists (x : Exception) (w' : W),
          IO.run io w = (Raise x, w') /\ isinstance x "Exception" = false
          /\ IO.run (IO.recover io (total h)) w = (Raise x, w'))).
  { unfold IO.run, IO.recover, try_except, total. cbn [IO.effect].
    destruct (IO.effect io w) as [[v|x] w1].
    - left. now exists v, w1.
    - destruct (isinstance x "Exception") eqn:Hx.
      + left. destruct (h x w1) as [a w2]. now exists a, w2.
      + right. now exists x, w1. }
  split; [exact Hcases|]. split; [|split].
  - intros Hio. destruct Hcases as [Hret|(x & w' & Hrun & Hx & _)]; [exact Hret|].
    rewrite (Hio x w' Hrun) in Hx. discriminate.
  - unfold IO.run, IO.recover, IO.map, IO.attempt, try_except, Py.bind, total.
    cbn [IO.effect].
    destruct (IO.effect io w) as [[v|x] w1]; cbn [ret]; [reflexivity|].
    destruct (isinstance x "Exception"); reflexivity.
  - unfold IO.run, IO.recover, IO.map, IO.attempt, try_except, Py.bind.
    cbn [IO.effect].
    destruct (IO.effect io w) as [[v|x] w1]; cbn [ret]; [reflexivity|].
    destruct (isinstance x "Exception"); reflexivity.
Qed.

Lemma io_recover_absorbs_errors_witness :
  exists (a : Z) (w' : nat),
    IO.run (IO.recover (IO.mkIO (flaky 1)) (total (fun _ w => (0, w)))) O = (Ret a, w').
Proof.
  apply (proj1 (proj2 (io_recover_absorbs_errors nat Z (IO.mkIO (flaky 1))
                         (fun _ w => (0, w)) 0 O))).
  intros x w' [= <- _]. reflexivity.
Defined.

Lemma for_list_app {W A B} (f : A -> Py W B) (xs ys : list A) (w : W) :
  for_list f (xs ++ ys) w
  = (a <~ for_list f xs; b <~ for_list f ys; ret (a ++ b)) w.
Proof.
  revert w. induction xs as [|x xs IH]; intros w.
  - cbn [app for_list]. unfold Py.bind at 1. cbn [ret].
    unfold Py.bind. destruct (for_list f ys w) as [[b|e] w1]; reflexivity.
  - cbn [app for_list]. unfold Py.bind.
    destruct (f x w) as [[y|e] w1]; [|reflexivity].
    rewrite IH. unfold Py.bind.
    destruct (for_list f xs w1) as [[a|e] w2]; [|reflexivity].
    cbn [ret].
    destruct (for_list f ys w2) as [[b|e] w3]; reflexivity.
Qed.

Lemma for_list_length {W A B} (f : A -> Py W B) (xs : list A) :
  forall (w : W) (ys : list B) (w' : W),
    for_list f xs w = (Ret ys, w') -> length ys = length xs.
Proof.
  induction xs as [|x xs IH]; intros w ys w' Hys.
  - now injection Hys as <- _.
  - cbn [for_list] in Hys. unfold Py.bind in Hys.
    destruct (f x w) as [[y|e] w1]; [|discriminate].
    destruct (for_list f xs w1) as [[ys'|e] w2] eqn:Hrest; [|discriminate].
    injection Hys as <- _. cbn. f_equal. eapply IH, Hrest.
Qed.

(** X8. [IO.sequence] runs the effects in list order and fails fast.
    When the effects of [before] all return and the next one, [bad],
    raises [x], running the sequence raises [x] in the world [bad] left:
    the effects listed after it are never run.  When all return, there is
    one result per effect. *)
Theorem io_sequence_in_order_fail_fast :
  forall (W A : Type) (before after : list (IO.IO W A)) (bad : IO.IO W A)
         (vs : list A) (x : Exception) (w w1 w2 : W),
    IO.run (IO.sequence before) w = (Ret vs, w1) ->
    length vs = length before
    /\ (IO.run bad w1 = (Raise x, w2) ->
        IO.run (IO.sequence (before ++ bad :: after)) w = (Raise x, w2)).
Proof.
  intros W A before after bad vs x w w1 w2 Hbefore.
  unfold IO.run, IO.sequence in *. cbn [IO.effect] in *. split.
  - eapply for_list_length, Hbefore.
  - intros Hbad. rewrite for_list_app. unfold Py.bind at 1. rewrite Hbefore.
    cbn [for_list]. unfold Py.bind. unfold IO.run. now rewrite Hbad.
Qed.

Lemma io_sequence_in_order_fail_fast_witness :
  IO.run (IO.sequence [IO.mkIO (flaky 1)]) 1%nat = (Ret [42], 2%nat)
  /\ IO.run (IO.sequence [IO.mkIO (flaky 1); IO.mkIO (flaky 9); IO.mkIO (flaky 0)])
       1%nat
     = (Raise boom, 3%nat).
Proof.
  split; [reflexivity|].
  apply (proj2 (io_sequence_in_order_fail_fast nat Z [IO.mkIO (flaky 1)]
                  [IO.mkIO (flaky 0)] (IO.mkIO (flaky 9)) [42] boom
                  1%nat 2%nat 3%nat eq_refl)).
  reflexivity.
Defined.

(** X9. [IO.traverse(items, f)] calls [f] on every item right away, in
    order, when [traverse] itself is called: an exception of [f] is raised
    by that call, not by a later [run()].  With an [f] that only builds
    its effect, the run of the result is the run of the effects [f(item)]
    in item order, and an empty list of items gives an empty list of
    results. *)
Theorem io_traverse_calls_f_at_once :
  forall (W A B : Type) (items : list A) (f : A -> Py W (IO.IO W B))
         (g : A -> IO.IO W B) (w : W),
    (forall (x : Exception) (w' : W),
        for_list f items w = (Raise x, w') ->
        IO.traverse items f w = (Raise x, w'))
    /\ (exists io : IO.IO W (list B),
          IO.traverse items (fun item => ret (g item)) w = (Ret io, w)
          /\ IO.run io w = for_list (fun item => IO.run (g item)) items w)
    /\ (exists io : IO.IO W (list B),
          IO.traverse [] f w = (Ret io, w) /\ IO.run io w = (Ret [], w)).
Proof.
  intros W A B items f g w. split; [|split].
  - intros x w' Hf. unfold IO.traverse, Py.bind. now rewrite Hf.
  - assert (Hpure : forall xs v,
      for_list (fun item => ret (W := W) (g item)) xs v = (Ret (g <$> xs), v)).
    { induction xs as [|y xs IH]; intros v; [reflexivity|].
      cbn [for_list]. unfold Py.bind. cbn [ret]. now rewrite IH. }
    eexists. unfold IO.traverse, Py.bind. rewrite Hpure. cbn [ret].
    split; [reflexivity|].
    unfold IO.run, IO.sequence. cbn [IO.effect].
    generalize w. induction items as [|y ys IH]; intros v; [reflexivity|].
    cbn [fmap list_fmap for_list]. unfold Py.bind, IO.run at 1.
    destruct (IO.effect (g y) v) as [[b|e] v1]; [|reflexivity].
    change (list_fmap A (IO.IO W B) g ys) with (g <$> ys). now rewrite IH.
  - eexists. split; reflexivity.
Qed.

Lemma io_traverse_calls_f_at_once_witness :
  IO.traverse [1; 2] (fun item : Z => if item =? 2 then raise boom
                                      else ret (IO.pure (W := unit) item)) tt
  = (Raise boom, tt).
Proof.
  apply (proj1 (io_traverse_calls_f_at_once unit Z Z [1; 2]
                  (fun item => if item =? 2 then raise boom else ret (IO.pure item))
                  (fun item => IO.pure item) tt) boom tt).
  reflexivity.
Defined.

(** X10. [retry(1)] adds nothing: running it is running the effect, with
    the same value or the same error after one invocation.  And for any
    [max_attempts >= 1], when the first invocation of the effect returns,
    [retry] returns its value in the world that invocation left. *)
Theorem io_retry_once_is_run :
  forall (W A : Type) (io : IO.IO W A) (max_attempts : Z) (w : W),
    IO.run (IO.retry io 1) w = IO.run io w
    /\ (1 <= max_attempts ->
        forall (v : A) (w' : W),
          IO.run io w = (Ret v, w') ->
          IO.run (IO.retry io max_attempts) w = (Ret v, w')).
Proof.
  intros W A io max_attempts w. unfold IO.run, IO.retry. cbn [IO.effect]. split.
  - change (Py.range 1) with [0]. cbn [IO.retry_loop].
    destruct (IO.effect io w) as [[v|e] w1]; [reflexivity|].
    destruct (isinstance e "Exception"); reflexivity.
  - intros Hmax v w' Hrun. unfold Py.range.
    destruct (Z.to_nat max_attempts) as [|n] eqn:Hn; [lia|].
    cbn [seq fmap list_fmap IO.retry_loop]. now rewrite Hrun.
Qed.

Lemma io_retry_once_is_run_witness :
  IO.run (IO.retry (IO.mkIO (flaky 0)) 5) 7%nat = (Ret 42, 8%nat).
Proof.
  apply (proj2 (io_retry_once_is_run nat Z (IO.mkIO (flaky 0)) 5 7%nat)
           ltac:(lia) 42 8%nat).
  reflexivity.
Defined.

(** ** [Stream]: the other transformations and terminal operations *)

Section MoreStreamFacts.
Import Stream.
Context {W : Type}.

(** *** [map] and [filter] *)

Lemma list_of_map_object_compose {A B C} (f : A -> Py W B) (g : B -> Py W C) :
  forall (fuel : nat) (it : Iterator W A) w,
    list_of fuel (map_object g (map_object f it)) w
    = list_of fuel (map_object (fun a => b <~ f a; g b) it) w.
Proof.
  induction fuel as [|fuel IH]; intros it w; [reflexivity|].
  rewrite !list_of_unfold, !step_map_object. unfold Py.bind in *.
  destruct (step it w) as [[[a it'|it'|]|e] w1]; try reflexivity.
  - destruct (f a w1) as [[b|e] w2].
    + destruct (g b w2) as [[c|e] w3]; [now rewrite IH|].
      destruct (isinstance e "StopIteration"); reflexivity.
    + destruct (isinstance e "StopIteration"); reflexivity.
  - apply IH.
Qed.

Lemma list_of_map_object_ret {A B} (f : A -> B) :
  forall (fuel : nat) (it : Iterator W A) w,
    list_of fuel (map_object (fun a => ret (f a)) it) w
    = on_result (fmap f) (list_of fuel it w).
Proof.
  induction fuel as [|fuel IH]; intros it w; [reflexivity|].
  rewrite !list_of_unfold, step_map_object.
  destruct (step it w) as [[[a it'|it'|]|e] w1]; cbn [ret]; try reflexivity.
  - rewrite IH. destruct (list_of fuel it' w1) as [[[l|e] w2]|]; reflexivity.
  - apply IH.
Qed.

Lemma list_of_filter_object_ret {A} (p : A -> bool) :
  forall (fuel : nat) (it : Iterator W A) w,
    list_of fuel (filter_object (fun a => ret (p a)) it) w
    = on_result (List.filter p) (list_of fuel it w).
Proof.
  induction fuel as [|fuel IH]; intros it w; [reflexivity|].
  rewrite !list_of_unfold, step_filter_object.
  destruct (step it w) as [[[a it'|it'|]|e] w1]; cbn [ret]; try reflexivity.
  - destruct (p a) eqn:Hp; cbn [ret]; rewrite IH;
      destruct (list_of fuel it' w1) as [[[l|e] w2]|]; cbn [on_result List.filter];
      rewrite ?Hp; reflexivity.
  - apply IH.
Qed.
End MoreStreamFacts.

(** X11. [Stream.map] composes: for every stream, also an unbounded or a
    side-effecting one, [s.map(f).map(g).to_list()] does what
    [s.map(lambda x: g(f(x))).to_list()] does, element by element and
    with the same budget: the calls of [f] and [g] alternate, [g] is not
    called on an element on which [f] raised. *)
Theorem stream_map_composition :
  forall (W A B C : Type) (s : Stream.Stream W A) (f : A -> Py W B)
         (g : B -> Py W C) (fuel : nat) (w : W),
    Stream.to_list fuel (Stream.map (Stream.map s f) g) w
    = Stream.to_list fuel (Stream.map s (fun a => b <~ f a; g b)) w.
Proof.
  intros W A B C s f g fuel w. unfold Stream.to_list.
  cbn [Stream.map Stream.source]. unfold Py.bind.
  destruct (Stream.source s w) as [[it|e] w1]; cbn [ret]; [|reflexivity].
  apply list_of_map_object_compose.
Qed.

(** X12. With functions that neither raise nor act on the world,
    [s.map(f).to_list()] is [s.to_list()] with [f] applied to every
    element and [s.filter(p).to_list()] is [s.to_list()] without the
    elements [p] refuses, in the same order: same budget, same final
    world, same exception if the stream raises one. *)
Theorem stream_map_filter_pure :
  forall (W A B : Type) (s : Stream.Stream W A) (f : A -> B) (p : A -> bool)
         (fuel : nat) (w : W),
    Stream.to_list fuel (Stream.map s (fun a => ret (f a))) w
    = on_result (fmap f) (Stream.to_list fuel s w)
    /\ Stream.to_list fuel (Stream.filter s (fun a => ret (p a))) w
       = on_result (List.filter p) (Stream.to_list fuel s w).
Proof.
  intros W A B s f p fuel w. unfold Stream.to_list.
  cbn [Stream.map Stream.filter Stream.source]. unfold Py.bind.
  destruct (Stream.source s w) as [[it|e] w1]; cbn [ret]; [|split; reflexivity].
  split; [apply list_of_map_object_ret | apply list_of_filter_object_ret].
Qed.

(** *** Terminal operations *)

Section TerminalFacts.
Import Stream.
Context {W : Type}.

Lemma count_loop_list_of {A} :
  forall (fuel : nat) (it : Iterator W A) (total : Z) w,
    count_loop fuel it total w
    = on_result (fun l => total + Z.of_nat (length l)) (list_of fuel it w).
Proof.
  induction fuel as [|fuel IH]; intros it total w; [reflexivity|].
  rewrite count_loop_unfold, list_of_unfold.
  destruct (step it w) as [[[a it'|it'|]|e] w1]; cbn [on_result length].
  - rewrite IH. destruct (list_of fuel it' w1) as [[[l|e] w2]|];
      cbn [on_result length]; try reflexivity.
    do 2 f_equal. f_equal. lia.
  - apply IH.
  - do 2 f_equal. f_equal. lia.
  - reflexivity.
Qed.

Lemma reduce_loop_list_of {A B} (f : B -> A -> B) :
  forall (fuel : nat) (it : Iterator W A) (result : B) w,
    reduce_loop fuel it (fun acc x => ret (f acc x)) result w
    = on_result (fun l => List.fold_left f l result) (list_of fuel it w).
Proof.
  induction fuel as [|fuel IH]; intros it result w; [reflexivity|].
  rewrite reduce_loop_unfold, list_of_unfold.
  destruct (step it w) as [[[a it'|it'|]|e] w1]; cbn [on_result ret].
  - rewrite IH. destruct (list_of fuel it' w1) as [[[l|e] w2]|]; reflexivity.
  - apply IH.
  - reflexivity.
  - reflexivity.
Qed.

Lemma exists_loop_find_loop {A} (predicate : A -> Py W bool) :
  forall (fuel : nat) (it : Iterator W A) w,
    exists_loop fuel it predicate w
    = on_result Either.is_right
        (find_loop fuel it (fun x => generator_body (predicate x)) w).
Proof.
  induction fuel as [|fuel IH]; intros it w; [reflexivity|].
  rewrite exists_loop_unfold, find_loop_unfold.
  destruct (step it w) as [[[a it'|it'|]|e] w1]; try reflexivity.
  - destruct (generator_body (predicate a) w1) as [[[|]|e] w2]; try reflexivity.
    apply IH.
  - apply IH.
Qed.

Lemma find_loop_ext {A} (p q : A -> Py W bool) :
  (forall x w, p x w = q x w) ->
  forall (fuel : nat) (it : Iterator W A) w,
    find_loop fuel it p w = find_loop fuel it q w.
Proof.
  intros Hpq. induction fuel as [|fuel IH]; intros it w; [reflexivity|].
  rewrite !find_loop_unfold.
  destruct (step it w) as [[[a it'|it'|]|e] w1]; try reflexivity.
  - rewrite Hpq. destruct (q a w1) as [[[|]|e] w2]; try reflexivity. apply IH.
  - apply IH.
Qed.

Lemma all_loop_exists_loop {A} (predicate : A -> Py W bool) :
  forall (fuel : nat) (it : Iterator W A) w,
    all_loop fuel it predicate w
    = on_result negb
        (exists_loop fuel it (fun x => b <~ predicate x; ret (negb b)) w).
Proof.
  induction fuel as [|fuel IH]; intros it w; [reflexivity|].
  rewrite all_loop_unfold, exists_loop_unfold.
  destruct (step it w) as [[[a it'|it'|]|e] w1]; try reflexivity.
  - unfold generator_body, Py.bind.
    destruct (predicate a w1) as [[[|]|e] w2]; cbn [ret negb]; try reflexivity.
    apply IH.
  - apply IH.
Qed.

Lemma for_each_loop_list_of {A B} (f : A -> Py W B) :
  (forall x w0 e w', f x w0 = (Raise e, w') -> isinstance e "StopIteration" = false) ->
  forall (fuel : nat) (it : Iterator W A) w,
    for_each_loop fuel it f w
    = on_result (fun _ => tt) (list_of fuel (map_object f it) w).
Proof.
  intros Hf. induction fuel as [|fuel IH]; intros it w; [reflexivity|].
  rewrite for_each_loop_unfold, list_of_unfold, step_map_object.
  destruct (step it w) as [[[a it'|it'|]|e] w1]; cbn [ret]; try reflexivity.
  - destruct (f a w1) as [[b|e] w2] eqn:Hfa.
    + rewrite IH.
      destruct (list_of fuel (map_object f it') w2) as [[[l|e] w3]|]; reflexivity.
    + now rewrite (Hf _ _ _ _ Hfa).
  - apply IH.
Qed.

Lemma for_each_loop_reduce_loop {A B} (f : A -> Py W B) :
  forall (fuel : nat) (it : Iterator W A) w,
    for_each_loop fuel it f w
    = reduce_loop fuel it (fun _ x => _ <~ f x; ret tt) tt w.
Proof.
  induction fuel as [|fuel IH]; intros it w; [reflexivity|].
  rewrite for_each_loop_unfold, reduce_loop_unfold.
  destruct (step it w) as [[[a it'|it'|]|e] w1]; try reflexivity.
  - unfold Py.bind. destruct (f a w1) as [[b|e] w2]; cbn [ret]; [apply IH|reflexivity].
  - apply IH.
Qed.
End TerminalFacts.

(** X13. [count()] and [reduce()] go through the stream exactly as
    [to_list()] does (same budget, same final world, same exception):
    [count()] returns the number of its elements and [reduce(f, initial)],
    like its alias [fold_left], the left fold of a function [f] that does
    not raise over them, which is [initial] for an empty stream. *)
Theorem stream_count_reduce_as_to_list :
  forall (W A B : Type) (s : Stream.Stream W A) (f : B -> A -> B) (initial : B)
         (fuel : nat) (w : W),
    Stream.count_ fuel s w
    = on_result (fun l => Z.of_nat (length l)) (Stream.to_list fuel s w)
    /\ Stream.reduce fuel s (fun acc x => ret (f acc x)) initial w
       = on_result (fun l => List.fold_left f l initial) (Stream.to_list fuel s w)
    /\ Stream.fold_left fuel s (fun acc x => ret (f acc x)) initial w
       = Stream.reduce fuel s (fun acc x => ret (f acc x)) initial w
    /\ Stream.reduce 1 (Stream.from_iterable []) (fun acc x => ret (f acc x))
         initial w
       = Some (Ret initial, w).
Proof.
  intros W A B s f initial fuel w.
  unfold Stream.count_, Stream.fold_left, Stream.reduce, Stream.to_list.
  destruct (Stream.source s w) as [[it|e] w1]; repeat split.
  - rewrite count_loop_list_of. reflexivity.
  - apply reduce_loop_list_of.
Qed.

(** X14. [exists] and [all] are the two readings of [find], with the
    predicate called in the body of a generator expression.  For every
    stream and predicate, [exists(p)] stops where [find] stops and is
    [True] exactly when it is a [Right], so it also returns on an
    unbounded stream that has a matching element; the one difference is
    that a [StopIteration] raised by the predicate leaves [exists] as a
    [RuntimeError], and [find] as it is.  [all(p)] is the negation of
    [exists] of the negated predicate and stops at the first element [p]
    refuses.  On an empty stream [exists] is [False] and [all] is
    [True]. *)
Theorem stream_exists_all_find :
  forall (W A : Type) (s : Stream.Stream W A) (p : A -> Py W bool)
         (fuel : nat) (w : W),
    Stream.exists_ fuel s p w
    = on_result Either.is_right
        (Stream.find fuel s (fun x => generator_body (p x)) w)
    /\ ((forall x w0 e w', p x w0 = (Raise e, w') ->
                           isinstance e "StopIteration" = false) ->
        Stream.exists_ fuel s p w
        = on_result Either.is_right (Stream.find fuel s p w))
    /\ Stream.all fuel s p w
       = on_result negb (Stream.exists_ fuel s (fun x => b <~ p x; ret (negb b)) w)
    /\ Stream.exists_ 1 (Stream.from_iterable []) p w = Some (Ret false, w)
    /\ Stream.all 1 (Stream.from_iterable []) p w = Some (Ret true, w).
Proof.
  intros W A s p fuel w.
  unfold Stream.exists_, Stream.all, Stream.find.
  destruct (Stream.source s w) as [[it|e] w1]; repeat split.
  - apply exists_loop_find_loop.
  - intros Hp. rewrite exists_loop_find_loop. f_equal.
    apply find_loop_ext. intros x w0. apply generator_body_id.
    intros e w'. apply Hp.
  - apply all_loop_exists_loop.
Qed.

Lemma stream_exists_all_find_witness :
  Stream.exists_ 6 (Stream.range 0 None 1) (fun x => ret (3 <? x)) tt
  = on_result Either.is_right
      (Stream.find 6 (Stream.range 0 None 1) (fun x => ret (3 <? x)) tt).
Proof.
  apply (proj1 (proj2 (stream_exists_all_find unit Z (Stream.range 0 None 1)
                         (fun x => ret (3 <? x)) 6 tt))).
  intros x w0 e w'. discriminate.
Defined.

(** X15. [for_each(f)] calls [f] on the elements in traversal order and
    nothing else: it is [reduce] with a callback that calls [f] and keeps
    nothing, and an error raised by [f] or by the stream leaves it as it
    is.  When [f] raises no [StopIteration], which [map] would take for
    the end of the stream, it also does what [map(f).to_list()] does,
    with the same budget, world and exception, and returns [None] instead
    of the list. *)
Theorem stream_for_each_as_map_to_list :
  forall (W A B : Type) (s : Stream.Stream W A) (f : A -> Py W B)
         (fuel : nat) (w : W),
    Stream.for_each fuel s f w
    = Stream.reduce fuel s (fun _ x => _ <~ f x; ret tt) tt w
    /\ ((forall x w0 e w', f x w0 = (Raise e, w') ->
                           isinstance e "StopIteration" = false) ->
        Stream.for_each fuel s f w
        = on_result (fun _ => tt) (Stream.to_list fuel (Stream.map s f) w)).
Proof.
  intros W A B s f fuel w. unfold Stream.for_each, Stream.reduce, Stream.to_list.
  cbn [Stream.map Stream.source]. unfold Py.bind at 2.
  destruct (Stream.source s w) as [[it|e] w1]; cbn [ret]; [|split; reflexivity].
  split; [apply for_each_loop_reduce_loop|].
  intros Hf. now apply for_each_loop_list_of.
Qed.

Lemma stream_for_each_as_map_to_list_witness :
  Stream.for_each 4 (Stream.of_ [1; 2; 3]) (logged (fun x : Z => ret x)) (tt, [])
  = on_result (fun _ => tt)
      (Stream.to_list 4 (Stream.map (Stream.of_ [1; 2; 3]) (logged (fun x : Z => ret x)))
         (tt, [])).
Proof.
  apply (proj2 (stream_for_each_as_map_to_list (unit * list Z) Z Z
                  (Stream.of_ [1; 2; 3]) (logged (fun x : Z => ret x)) 4 (tt, []))).
  intros x [[] log] e w'. discriminate.
Defined.

(** *** [take] *)

Section TakeFacts.
Import Stream.
Context {W : Type}.

Lemma list_of_islice_islice {A} :
  forall (fuel : nat) (it : Iterator W A) (a b : nat) w,
    list_of fuel (islice (islice it a) b) w
    = list_of fuel (islice it (Nat.min a b)) w.
Proof.
  induction fuel as [|fuel IH]; intros it a b w; [reflexivity|].
  rewrite !list_of_unfold.
  destruct b as [|b]; [now rewrite Nat.min_0_r|].
  destruct a as [|a]; [reflexivity|].
  cbn [Nat.min step]. unfold Py.bind.
  destruct (step it w) as [[[x it'|it'|]|e] w1]; cbn [ret]; try reflexivity.
  - now rewrite IH.
  - now rewrite IH.
Qed.

Lemma list_of_islice_prefix {A} :
  forall (fuel : nat) (it : Iterator W A) (k : nat) (l : list A) w w',
    list_of fuel it w = Some (Ret l, w') ->
    exists w'',
      list_of fuel (islice it k) w = Some (Ret (firstn k l), w'')
      /\ ((length l < k)%nat -> w'' = w').
Proof.
  induction fuel as [|fuel IH]; intros it k l w w' Hl; [discriminate|].
  rewrite list_of_unfold in Hl. rewrite list_of_unfold.
  destruct k as [|k].
  { exists w. split; [reflexivity | intros Hlt; inversion Hlt]. }
  cbn [step]. unfold Py.bind.
  destruct (step it w) as [[[x it'|it'|]|e] w1]; cbn [ret].
  - destruct (list_of fuel it' w1) as [[[l'|e] w2]|] eqn:Hit; try discriminate.
    injection Hl as <- <-.
    destruct (IH it' k l' w1 w2 Hit) as (w'' & Hk & Hw).
    exists w''. rewrite Hk. split; [reflexivity|].
    cbn [length]. intros Hlt. apply Hw. lia.
  - destruct (IH it' (S k) l w1 w' Hl) as (w'' & Hk & Hw). now exists w''.
  - injection Hl as <- <-. now exists w1.
  - discriminate.
Qed.
End TakeFacts.

Lemma take_source_valid {W A} (s : Stream.Stream W A) (n : Z) (w : W) :
  0 <= n <= Stream.sys_maxsize ->
  Stream.source (Stream.take s n) w
  = (it <~ Stream.source s; ret (Stream.islice it (Z.to_nat n))) w.
Proof.
  intros Hn. cbn [Stream.take Stream.source]. unfold Py.bind.
  destruct (Stream.source s w) as [[it|e] w1]; [|reflexivity].
  replace (0 <=? n) with true by (symmetry; apply Z.leb_le; lia).
  replace (n <=? Stream.sys_maxsize) with true by (symmetry; apply Z.leb_le; lia).
  reflexivity.
Qed.

Lemma take_source_invalid {W A} (s : Stream.Stream W A) (n : Z) (w : W) :
  n < 0 \/ Stream.sys_maxsize < n ->
  Stream.source (Stream.take s n) w
  = (it <~ Stream.source s;
     raise (if (- Stream.sys_maxsize - 1 <=? n) && (n <=? -2)
            then Stream.ValueError_islice_indices
            else Stream.ValueError_islice)) w.
Proof.
  intros Hn. cbn [Stream.take Stream.source]. unfold Py.bind.
  destruct (Stream.source s w) as [[it|e] w1]; [|reflexivity].
  replace ((0 <=? n) && (n <=? Stream.sys_maxsize)) with false.
  - now destruct ((- Stream.sys_maxsize - 1 <=? n) && (n <=? -2)).
  - symmetry. apply andb_false_iff.
    destruct Hn as [Hn|Hn]; [left; apply Z.leb_gt | right; apply Z.leb_gt]; lia.
Qed.

(** X16. [take(n)] with [0 <= n <= sys.maxsize] on a stream whose
    traversal ends, with the elements [l]: [take(n).to_list()] returns
    the first [n] elements of [l] (all of them when there are fewer)
    within the same budget; when there are fewer than [n], the world is
    left as by the traversal of the stream itself. *)
Theorem stream_take_prefix :
  forall (W A : Type) (s : Stream.Stream W A) (n : Z) (fuel : nat)
         (l : list A) (w w' : W),
    0 <= n <= Stream.sys_maxsize ->
    Stream.to_list fuel s w = Some (Ret l, w') ->
    exists w'',
      Stream.to_list fuel (Stream.take s n) w
      = Some (Ret (firstn (Z.to_nat n) l), w'')
      /\ (Z.of_nat (length l) < n -> w'' = w').
Proof.
  intros W A s n fuel l w w' Hn Hl. unfold Stream.to_list in *.
  rewrite take_source_valid by exact Hn. unfold Py.bind.
  destruct (Stream.source s w) as [[it|e] w1]; [|discriminate].
  cbn [ret].
  destruct (list_of_islice_prefix fuel it (Z.to_nat n) l w1 w' Hl) as (w'' & Hk & Hw).
  exists w''. split; [exact Hk|]. intros Hlt. apply Hw. lia.
Qed.

Lemma stream_take_prefix_witness :
  exists w'' : unit,
    Stream.to_list 6 (Stream.take (Stream.of_ [10; 20; 30; 40; 50]) 2) tt
    = Some (Ret [10; 20], w'')
    /\ (5 < 2 -> w'' = tt).
Proof.
  apply (stream_take_prefix unit Z (Stream.of_ [10; 20; 30; 40; 50]) 2 6
           [10; 20; 30; 40; 50] tt tt); [|reflexivity].
  split; [lia | discriminate].
Defined.

(** X17. [take] composes and checks its argument late.  For [n] and [m]
    that [islice] accepts, [s.take(n).take(m).to_list()] does what
    [s.take(min(n, m)).to_list()] does; so it does for a negative [m],
    both raising the same error.  An [n] that [islice] refuses, negative
    or above [sys.maxsize], is not refused when [take] is called: the
    [ValueError] of [islice] is raised by the traversal, with any budget,
    once the stream has been asked for its iterator; its message is the
    one about indices for [-sys.maxsize - 1 <= n <= -2] and the one about
    the stop argument otherwise. *)
Theorem stream_take_take_and_negative :
  forall (W A : Type) (s : Stream.Stream W A) (n m : Z) (fuel : nat) (w : W),
    (0 <= n <= Stream.sys_maxsize -> m <= Stream.sys_maxsize ->
     Stream.to_list fuel (Stream.take (Stream.take s n) m) w
     = Stream.to_list fuel (Stream.take s (Z.min n m)) w)
    /\ (n < 0 \/ Stream.sys_maxsize < n ->
        Stream.to_list fuel (Stream.take s n) w
        = Some (let '(r, w1) := Stream.source s w in
                (match r with
                 | Ret _ =>
                     Raise (if (- Stream.sys_maxsize - 1 <=? n) && (n <=? -2)
                            then Stream.ValueError_islice_indices
                            else Stream.ValueError_islice)
                 | Raise e => Raise e
                 end, w1))).
Proof.
  intros W A s n m fuel w. unfold Stream.to_list. split.
  - intros Hn Hm. destruct (Z.le_gt_cases 0 m) as [Hm0|Hm0].
    + rewrite !take_source_valid by lia. unfold Py.bind.
      rewrite take_source_valid by lia. unfold Py.bind.
      destruct (Stream.source s w) as [[it|e] w1]; [|reflexivity].
      cbn [ret]. rewrite list_of_islice_islice. now rewrite Z2Nat.inj_min.
    + rewrite !take_source_invalid by lia. unfold Py.bind.
      rewrite take_source_valid by lia. unfold Py.bind.
      replace (Z.min n m) with m by lia.
      destruct (Stream.source s w) as [[it|e] w1]; reflexivity.
  - intros Hn. rewrite take_source_invalid by exact Hn. unfold Py.bind.
    destruct (Stream.source s w) as [[it|e] w1]; reflexivity.
Qed.

Lemma stream_take_take_and_negative_witness :
  Stream.to_list 4 (Stream.take (Stream.take (Stream.range 0 None 1) 5) 3) tt
  = Stream.to_list 4 (Stream.take (Stream.range 0 None 1) (Z.min 5 3)) tt
  /\ Stream.to_list 0 (Stream.take (Stream.range 0 None 1) (-1)) tt
     = Some (Raise Stream.ValueError_islice, tt)
  /\ Stream.to_list 0 (Stream.take (Stream.range 0 None 1) (-2)) tt
     = Some (Raise Stream.ValueError_islice_indices, tt)
  /\ Stream.to_list 0 (Stream.take (Stream.range 0 None 1) (2 ^ 63)) tt
     = Some (Raise Stream.ValueError_islice, tt).
Proof.
  split; [|split; [|split]].
  - apply (proj1 (stream_take_take_and_negative unit Z (Stream.range 0 None 1)
                    5 3 4%nat tt)); [split; [lia | discriminate] | discriminate].
  - apply (proj2 (stream_take_take_and_negative unit Z (Stream.range 0 None 1)
                    (-1) 0 0%nat tt)). left. lia.
  - apply (proj2 (stream_take_take_and_negative unit Z (Stream.range 0 None 1)
                    (-2) 0 0%nat tt)). left. lia.
  - apply (proj2 (stream_take_take_and_negative unit Z (Stream.range 0 None 1)
                    (2 ^ 63) 0 0%nat tt)). right. reflexivity.
Defined.

(** *** [bind]: right identity *)

Section BindPure.
Import Stream.
Context {W A : Type}.

Lemma step_bind_outer_pure (it : Iterator W A) w :
  step (bind_outer it pure_stream) w =
    match step it w with
    | (Ret (Yield a it'), w1) =>
        (Ret (Skip (bind_inner it' pure_stream (list_iterator [a]))), w1)
    | (Ret (Skip it'), w1) => (Ret (Skip (bind_outer it' pure_stream)), w1)
    | (Ret Done, w1) => (Ret Done, w1)
    | (Raise e, w1) => (Raise e, w1)
    end.
Proof.
  rewrite step_bind_outer.
  destruct (step it w) as [[[a it'|it'|]|e] w1]; reflexivity.
Qed.

(** Binding [pure] spends three loop turns on every element. *)
Lemma list_of_bind_outer_pure :
  forall (fuel : nat) (it : Iterator W A) w r,
    list_of fuel it w = Some r ->
    list_of (3 * fuel) (bind_outer it pure_stream) w = Some r.
Proof.
  induction fuel as [|fuel IH]; intros it w r Hr; [discriminate|].
  replace (3 * S fuel)%nat with (S (S (S (3 * fuel)))) by lia.
  rewrite list_of_unfold in Hr. rewrite list_of_unfold, step_bind_outer_pure.
  destruct (step it w) as [[[a it'|it'|]|e] w1].
  - rewrite list_of_unfold, step_bind_inner. cbn [step ret].
    rewrite list_of_unfold, step_bind_inner. cbn [step ret].
    destruct (list_of fuel it' w1) as [r'|] eqn:Hit; [|discriminate].
    now rewrite (IH _ _ _ Hit).
  - eapply list_of_mono; [|apply IH, Hr]. lia.
  - exact Hr.
  - exact Hr.
Qed.

Lemma list_of_bind_outer_pure_inv :
  forall (bound fuel : nat) (it : Iterator W A) w r,
    (fuel <= bound)%nat ->
    list_of fuel (bind_outer it pure_stream) w = Some r ->
    list_of fuel it w = Some r.
Proof.
  induction bound as [|bound IH]; intros fuel it w r Hle Hr.
  { destruct fuel; [discriminate | lia]. }
  destruct fuel as [|fuel]; [discriminate|].
  rewrite list_of_unfold, step_bind_outer_pure in Hr. rewrite list_of_unfold.
  destruct (step it w) as [[[a it'|it'|]|e] w1].
  - destruct fuel as [|fuel]; [discriminate|].
    rewrite list_of_unfold, step_bind_inner in Hr. cbn [step ret] in Hr.
    destruct fuel as [|fuel]; [discriminate|].
    rewrite list_of_unfold, step_bind_inner in Hr. cbn [step ret] in Hr.
    destruct (list_of fuel (bind_outer it' pure_stream) w1) as [r'|] eqn:Hit;
      [|discriminate].
    apply IH in Hit; [|lia].
    now rewrite (list_of_mono fuel (S (S fuel)) it' w1 r' ltac:(lia) Hit).
  - apply IH in Hr; [exact Hr | lia].
  - exact Hr.
  - exact Hr.
Qed.
End BindPure.

(** X18. Right identity for [Stream], the second law of the base class,
    as the code has it: for every stream [m], also one with side effects,
    [m.bind(Stream.pure).to_list()] returns an outcome (the list or the
    raised error, with the world it leaves) exactly when [m.to_list()]
    returns it, with one difference: [bind] asks [m] for its iterator in
    the body of its generator, so a [StopIteration] raised by the source
    of [m] comes out as a [RuntimeError].  When the source of [m] raises
    no [StopIteration], the two agree; neither returns when the other does
    not. *)
Theorem stream_bind_right_identity :
  forall (W A : Type) (m : Stream.Stream W A) (w : W) (r : outcome (list A) * W),
    (Stream.returns
       (fun fuel => Stream.to_list fuel (Stream.bind m (fun a => ret (Stream.pure a))))
       w r
     <-> Stream.returns
           (fun fuel =>
              Stream.to_list fuel (Stream.mkStream (generator_body (Stream.source m))))
           w r)
    /\ ((forall e w', Stream.source m w = (Raise e, w') ->
                      isinstance e "StopIteration" = false) ->
        (Stream.returns
           (fun fuel =>
              Stream.to_list fuel (Stream.bind m (fun a => ret (Stream.pure a))))
           w r
         <-> Stream.returns (fun fuel => Stream.to_list fuel m) w r)).
Proof.
  intros W A m w r.
  assert (Hfirst :
    Stream.returns
      (fun fuel => Stream.to_list fuel (Stream.bind m (fun a => ret (Stream.pure a))))
      w r
    <-> Stream.returns
          (fun fuel =>
             Stream.to_list fuel (Stream.mkStream (generator_body (Stream.source m))))
          w r).
  { unfold Stream.returns, Stream.to_list.
    cbn [Stream.bind Stream.source ret]. unfold generator_body.
    split; intros [fuel Hr].
    - destruct fuel as [|fuel]; [discriminate|].
      rewrite list_of_unfold, step_bind_start in Hr.
      destruct (Stream.source m w) as [[it|e] w1].
      + exists fuel. eapply list_of_bind_outer_pure_inv; [reflexivity | exact Hr].
      + exists O. exact Hr.
    - destruct (Stream.source m w) as [[it|e] w1] eqn:Hsrc.
      + exists (S (3 * fuel)). rewrite list_of_unfold, step_bind_start, Hsrc.
        now apply list_of_bind_outer_pure.
      + exists 1%nat. rewrite list_of_unfold, step_bind_start, Hsrc. exact Hr. }
  split; [exact Hfirst|].
  intros Hm. rewrite Hfirst. unfold Stream.returns, Stream.to_list.
  cbn [Stream.source]. now rewrite generator_body_id by exact Hm.
Qed.

Lemma stream_bind_right_identity_witness :
  Stream.returns
    (fun fuel =>
       Stream.to_list fuel
         (Stream.bind (Stream.of_ [1; 2; 3]) (fun a => ret (Stream.pure a))))
    tt (Ret [1; 2; 3], tt)
  <-> Stream.returns (fun fuel => Stream.to_list fuel (Stream.of_ [1; 2; 3]))
        tt (Ret [1; 2; 3], tt).
Proof.
  apply (proj2 (stream_bind_right_identity unit Z (Stream.of_ [1; 2; 3]) tt
                  (Ret [1; 2; 3], tt))).
  intros e w'. discriminate.
Defined.

(** *** [bind] over the elements of a list *)

Section BindLists.
Import Stream.
Context {W A B : Type}.

Lemma list_of_bind_inner_list (f : A -> Py W (Stream W B)) (items : Iterator W A) :
  forall (ys : list B) (fuel : nat) w,
    list_of (length ys + S fuel) (bind_inner items f (list_iterator ys)) w
    = on_result (app ys) (list_of fuel (bind_outer items f) w).
Proof.
  induction ys as [|y ys IH]; intros fuel w.
  - cbn [length Nat.add]. rewrite list_of_unfold, step_bind_inner. cbn [step ret].
    destruct (list_of fuel (bind_outer items f) w) as [[[l|e] w1]|]; reflexivity.
  - cbn [length Nat.add]. rewrite list_of_unfold, step_bind_inner. cbn [step ret].
    rewrite IH.
    destruct (list_of fuel (bind_outer items f) w) as [[[l|e] w1]|]; reflexivity.
Qed.

Lemma list_of_bind_outer_list (h : A -> Py W (list B)) :
  forall (l : list A) w,
    exists fuel,
      list_of fuel (bind_outer (list_iterator l) (stream_of_list h)) w
      = Some ((yss <~ for_list (fun x => generator_body (h x)) l;
               ret (concat yss)) w).
Proof.
  induction l as [|x l IH]; intros w.
  - exists 1%nat. reflexivity.
  - cbn [for_list]. unfold Py.bind at 1 2. unfold generator_body at 1.
    destruct (h x w) as [[ys|e] w1] eqn:Hx.
    + destruct (IH w1) as [fuel Hfuel]. exists (S (length ys + S fuel)).
      rewrite list_of_unfold, step_bind_outer. cbn [step ret].
      unfold stream_of_list at 1, Py.bind at 1. rewrite Hx. cbn [ret of_ source].
      rewrite list_of_bind_inner_list, Hfuel. unfold Py.bind.
      destruct (for_list (fun x0 => generator_body (h x0)) l w1) as [[yss|e] w2];
        reflexivity.
    + exists 1%nat. rewrite list_of_unfold, step_bind_outer. cbn [step ret].
      unfold stream_of_list at 1, Py.bind at 1. now rewrite Hx.
Qed.
End BindLists.

Lemma for_list_ret {W A B} (g : A -> B) (l : list A) (w : W) :
  for_list (fun x => ret (g x)) l w = (Ret (g <$> l), w).
Proof.
  induction l as [|x l IH]; [reflexivity|].
  cbn [for_list]. unfold Py.bind. cbn [ret]. now rewrite IH.
Qed.

Lemma for_list_ext {W A B} (f g : A -> Py W B) (l : list A) (w : W) :
  (forall x w0, f x w0 = g x w0) -> for_list f l w = for_list g l w.
Proof.
  intros Hfg. revert w. induction l as [|x l IH]; intros w; [reflexivity|].
  cbn [for_list]. unfold Py.bind. rewrite Hfg.
  destruct (g x w) as [[y|e] w1]; [|reflexivity]. now rewrite IH.
Qed.

(** X19. [bind] is a flat map, outer element first.  Over the elements
    of a list, with an [f] that computes a list [h(x)] and returns the
    stream over it, [bind(f).to_list()] returns after the calls
    [h(x1)], [h(x2)], ... in order, made in the body of the generator, and
    gives their lists one after the other; when a call raises, so does
    the traversal, a [RuntimeError] in the place of a [StopIteration].
    [flatten()] on a stream of lists gives the lists one after the
    other. *)
Theorem stream_bind_flat_map_lists :
  forall (W A B : Type) (l : list A) (h : A -> Py W (list B))
         (ls : list (list B)) (w : W),
    Stream.returns
      (fun fuel => Stream.to_list fuel (Stream.bind (Stream.of_ l) (stream_of_list h)))
      w ((yss <~ for_list (fun x => generator_body (h x)) l; ret (concat yss)) w)
    /\ Stream.returns
         (fun fuel => Stream.to_list fuel (Stream.flatten (Stream.from_iterable ls)))
         w (Ret (concat ls), w).
Proof.
  intros W A B l h ls w. unfold Stream.returns, Stream.to_list. split.
  - cbn [Stream.bind Stream.source ret].
    destruct (list_of_bind_outer_list h l w) as [fuel Hfuel].
    exists (S fuel). rewrite list_of_unfold, step_bind_start.
    cbn [Stream.of_ Stream.source ret]. exact Hfuel.
  - cbn [Stream.flatten Stream.source ret].
    destruct (list_of_bind_outer_list (fun items => ret items) ls w) as [fuel Hfuel].
    exists (S fuel). rewrite list_of_unfold, step_bind_start.
    cbn [Stream.from_iterable Stream.source ret].
    unfold Py.bind in Hfuel.
    rewrite (for_list_ext _ (fun x => ret (id x))) in Hfuel by reflexivity.
    rewrite for_list_ret, list_fmap_id in Hfuel.
    exact Hfuel.
Qed.

(** *** [bind]: associativity *)

Section BindAssoc.
Import Stream.
Context {W A B C : Type}.
Context (f : A -> Py W (Stream W B)) (g : B -> Py W (Stream W C)).

Lemma bind_after_call (x : A) w :
  bind_after f g x w =
    match f x w with
    | (Ret s, w1) => (Ret (bind s g), w1)
    | (Raise e, w1) => (Raise e, w1)
    end.
Proof.
  unfold bind_after, Py.bind. destruct (f x w) as [[s|e] w1]; reflexivity.
Qed.

(** The generator of [m.bind(f).bind(g)] and the one of
    [m.bind(lambda x: f(x).bind(g))] at their three corresponding
    suspension points: what the first returns within a budget, the second
    returns within twice that budget. *)
Lemma bind_assoc_forward :
  forall fuel : nat,
    (forall (mi : Iterator W A) w r,
        list_of fuel (bind_outer (bind_outer mi f) g) w = Some r ->
        list_of (2 * fuel) (bind_outer mi (bind_after f g)) w = Some r)
    /\ (forall (mi : Iterator W A) (si : Iterator W B) w r,
        list_of fuel (bind_outer (bind_inner mi f si) g) w = Some r ->
        list_of (2 * fuel) (bind_inner mi (bind_after f g) (bind_outer si g)) w
        = Some r)
    /\ (forall (mi : Iterator W A) (si : Iterator W B) (gi : Iterator W C) w r,
        list_of fuel (bind_inner (bind_inner mi f si) g gi) w = Some r ->
        list_of (2 * fuel) (bind_inner mi (bind_after f g) (bind_inner si g gi)) w
        = Some r).
Proof.
  induction fuel as [|fuel (IHc & IHd & IHe)];
    [repeat split; intros; discriminate|].
  replace (2 * S fuel)%nat with (S (S (2 * fuel))) by lia.
  split; [|split].
  - intros mi w r Hr.
    rewrite list_of_unfold, step_bind_outer, step_bind_outer in Hr.
    rewrite list_of_unfold, step_bind_outer.
    destruct (step mi w) as [[[x mi'|mi'|]|e] w1].
    + rewrite bind_after_call.
      destruct (f x w1) as [[s|e] w2]; [|exact Hr].
      cbn [bind source ret]. rewrite list_of_unfold, step_bind_inner, step_bind_start.
      destruct (source s w2) as [[si|e] w3]; [|exact Hr].
      now apply IHd.
    + apply list_of_S. now apply IHc.
    + exact Hr.
    + exact Hr.
  - intros mi si w r Hr.
    rewrite list_of_unfold, step_bind_outer, step_bind_inner in Hr.
    rewrite list_of_unfold, step_bind_inner, step_bind_outer.
    destruct (step si w) as [[[y si'|si'|]|e] w1].
    + destruct (g y w1) as [[t|e] w2]; [|exact Hr].
      destruct (source t w2) as [[gi|e] w3]; [|exact Hr].
      apply list_of_S. now apply IHe.
    + apply list_of_S. now apply IHd.
    + apply list_of_S. now apply IHc.
    + exact Hr.
  - intros mi si gi w r Hr.
    rewrite list_of_unfold, step_bind_inner in Hr.
    rewrite list_of_unfold, step_bind_inner, step_bind_inner.
    destruct (step gi w) as [[[z gi'|gi'|]|e] w1].
    + destruct (list_of fuel (bind_inner (bind_inner mi f si) g gi') w1)
        as [r'|] eqn:Hrest; [|discriminate].
      now rewrite (list_of_S _ _ _ _ (IHe _ _ _ _ _ Hrest)).
    + apply list_of_S. now apply IHe.
    + apply list_of_S. now apply IHd.
    + exact Hr.
Qed.

(** And what the second returns within a budget, the first returns
    within the same budget. *)
Lemma bind_assoc_backward :
  forall bound fuel : nat,
    (fuel <= bound)%nat ->
    (forall (mi : Iterator W A) w r,
        list_of fuel (bind_outer mi (bind_after f g)) w = Some r ->
        list_of fuel (bind_outer (bind_outer mi f) g) w = Some r)
    /\ (forall (mi : Iterator W A) (si : Iterator W B) w r,
        list_of fuel (bind_inner mi (bind_after f g) (bind_outer si g)) w = Some r ->
        list_of fuel (bind_outer (bind_inner mi f si) g) w = Some r)
    /\ (forall (mi : Iterator W A) (si : Iterator W B) (gi : Iterator W C) w r,
        list_of fuel (bind_inner mi (bind_after f g) (bind_inner si g gi)) w
        = Some r ->
        list_of fuel (bind_inner (bind_inner mi f si) g gi) w = Some r).
Proof.
  induction bound as [|bound IH]; intros fuel Hle.
  { replace fuel with O by lia. repeat split; intros; discriminate. }
  destruct fuel as [|fuel]; [repeat split; intros; discriminate|].
  destruct (IH fuel ltac:(lia)) as (IHc & IHd & IHe).
  split; [|split].
  - intros mi w r Hr.
    rewrite list_of_unfold, step_bind_outer in Hr.
    rewrite list_of_unfold, step_bind_outer, step_bind_outer.
    destruct (step mi w) as [[[x mi'|mi'|]|e] w1].
    + rewrite bind_after_call in Hr.
      destruct (f x w1) as [[s|e] w2]; [|exact Hr].
      cbn [bind source ret] in Hr.
      destruct fuel as [|fuel]; [discriminate|].
      rewrite list_of_unfold, step_bind_inner, step_bind_start in Hr.
      destruct (source s w2) as [[si|e] w3]; [|exact Hr].
      apply list_of_S.
      destruct (IH fuel ltac:(lia)) as (_ & IHd' & _). now apply IHd'.
    + now apply IHc.
    + exact Hr.
    + exact Hr.
  - intros mi si w r Hr.
    rewrite list_of_unfold, step_bind_inner, step_bind_outer in Hr.
    rewrite list_of_unfold, step_bind_outer, step_bind_inner.
    destruct (step si w) as [[[y si'|si'|]|e] w1].
    + destruct (g y w1) as [[t|e] w2]; [|exact Hr].
      destruct (source t w2) as [[gi|e] w3]; [|exact Hr].
      now apply IHe.
    + now apply IHd.
    + now apply IHc.
    + exact Hr.
  - intros mi si gi w r Hr.
    rewrite list_of_unfold, step_bind_inner, step_bind_inner in Hr.
    rewrite list_of_unfold, step_bind_inner.
    destruct (step gi w) as [[[z gi'|gi'|]|e] w1].
    + destruct (list_of fuel (bind_inner mi (bind_after f g) (bind_inner si g gi')) w1)
        as [r'|] eqn:Hrest; [|discriminate].
      now rewrite (IHe _ _ _ _ _ Hrest).
    + now apply IHe.
    + now apply IHd.
    + exact Hr.
Qed.
End BindAssoc.

(** X20. Associativity for [Stream], the third law of the base class:
    for every stream [m] and all [f] and [g], side effects and exceptions
    included, [m.bind(f).bind(g).to_list()] returns an outcome (the list or
    the raised error, with the world it leaves) exactly when
    [m.bind(lambda x: f(x).bind(g)).to_list()] returns it. *)
Theorem stream_bind_associativity :
  forall (W A B C : Type) (m : Stream.Stream W A)
         (f : A -> Py W (Stream.Stream W B)) (g : B -> Py W (Stream.Stream W C))
         (w : W) (r : outcome (list C) * W),
    Stream.returns
      (fun fuel => Stream.to_list fuel (Stream.bind (Stream.bind m f) g)) w r
    <-> Stream.returns
          (fun fuel => Stream.to_list fuel (Stream.bind m (bind_after f g))) w r.
Proof.
  intros W A B C m f g w r. unfold Stream.returns, Stream.to_list.
  cbn [Stream.bind Stream.source ret]. split; intros [fuel Hr].
  - destruct fuel as [|fuel]; [discriminate|].
    rewrite list_of_unfold, step_bind_start in Hr.
    cbn [Stream.bind Stream.source ret] in Hr.
    destruct fuel as [|fuel]; [discriminate|].
    rewrite list_of_unfold, step_bind_outer, step_bind_start in Hr.
    destruct (Stream.source m w) as [[mi|e] w1] eqn:Hsrc.
    + exists (S (2 * fuel)). rewrite list_of_unfold, step_bind_start, Hsrc.
      now apply bind_assoc_forward.
    + exists 1%nat. rewrite list_of_unfold, step_bind_start, Hsrc. exact Hr.
  - destruct fuel as [|fuel]; [discriminate|].
    rewrite list_of_unfold, step_bind_start in Hr.
    exists (S (S fuel)).
    rewrite list_of_unfold, step_bind_start. cbn [Stream.bind Stream.source ret].
    rewrite list_of_unfold, step_bind_outer, step_bind_start.
    destruct (Stream.source m w) as [[mi|e] w1]; [|exact Hr].
    eapply bind_assoc_backward; [reflexivity | exact Hr].
Qed.

Lemma fmap_const_replicate {A B} (l : list A) (k : B) :
  (fun _ : A => k) <$> l = replicate (length l) k.
Proof. induction l as [|x l IH]; [reflexivity | cbn; now rewrite IH]. Qed.

(** X21. The operator [>>] of the base class, [self.bind(lambda _: other)].
    For [IO] it runs [self], drops its value and runs [other], which is not
    run when [self] raises.  For [Either] a [Left] stays and a [Right] is
    replaced by [other].  For [Stream] it does not append: over lists,
    [s1 >> s2] gives the elements of [s2] once for every element of [s1]. *)
Theorem rshift_sequences :
  forall (W E A B : Type) (a : IO.IO W A) (b : IO.IO W B)
         (m : Either.Either E A) (other : Either.Either E B)
         (l : list A) (k : list B) (w : W),
    IO.run (IO.rshift a b) w = (_ <~ IO.run a; IO.run b) w
    /\ Either.rshift m other w
       = (Ret (match m with
               | Either.Left e => Either.Left e
               | Either.Right _ => other
               end), w)
    /\ Stream.returns
         (fun fuel => Stream.to_list fuel (Stream.rshift (Stream.of_ l) (Stream.of_ k)))
         w (Ret (concat (replicate (length l) k)), w).
Proof.
  intros W E A B a b m other l k w. split; [|split].
  - unfold IO.run, IO.rshift, IO.bind, Py.bind. cbn [IO.effect].
    destruct (IO.effect a w) as [[v|e] w1]; reflexivity.
  - destruct m; reflexivity.
  - unfold Stream.returns, Stream.to_list.
    cbn [Stream.rshift Stream.bind Stream.source ret].
    destruct (list_of_bind_outer_list (fun _ : A => ret k) l w) as [fuel Hfuel].
    exists (S fuel). rewrite list_of_unfold, step_bind_start.
    cbn [Stream.of_ Stream.source ret].
    unfold Py.bind in Hfuel.
    rewrite (for_list_ext _ (fun _ => ret k)) in Hfuel by reflexivity.
    rewrite for_list_ret in Hfuel.
    rewrite fmap_const_replicate in Hfuel. exact Hfuel.
Qed.

(** *** [range] *)

Lemma list_of_count_never (W : Type) :
  forall (fuel : nat) (n stp : Z) (w : W),
    Stream.list_of fuel (Stream.count n stp) w = None.
Proof.
  induction fuel as [|fuel IH]; intros n stp w; [reflexivity|].
  rewrite list_of_unfold. cbn [Stream.step ret]. now rewrite IH.
Qed.

Lemma range_list_consecutive (start stop : Z) :
  Stream.range_list start stop 1 = consecutive start (Z.to_nat (stop - start)).
Proof.
  unfold Stream.range_list, consecutive.
  replace (0 <? 1) with true by reflexivity. cbn [andb].
  destruct (start <? stop) eqn:Hlt.
  - replace ((stop - start + 1 - 1) / 1) with (stop - start)
      by (rewrite Z.div_1_r; lia).
    apply list_fmap_ext. intros _ i _. lia.
  - apply Z.ltb_ge in Hlt. cbn [andb].
    replace (Z.to_nat (stop - start)) with O by lia. reflexivity.
Qed.

Lemma list_of_list_iterator {W A} (l : list A) (w : W) :
  Stream.list_of (S (length l)) (Stream.list_iterator l) w = Some (Ret l, w).
Proof.
  induction l as [|x l IH]; [reflexivity|].
  cbn [length]. rewrite list_of_unfold. cbn [Stream.step ret]. now rewrite IH.
Qed.

(** X22. [Stream.range].  Without [stop] the stream is unbounded: no
    budget is enough for [to_list()] or [count()] on it, whatever the
    start and the step.  With a [stop] and the default step,
    [to_list()] returns the integers from [start] up to but not including
    [stop], none when [stop <= start].  A step of [0] is not refused when
    [range] is called: the [ValueError] is raised by the traversal. *)
Theorem stream_range_bounds :
  forall (W : Type) (start stop stp : Z) (fuel : nat) (w : W),
    Stream.to_list fuel (Stream.range start None stp) w = None
    /\ Stream.count_ fuel (Stream.range start None stp) w = None
    /\ Stream.to_list (S (Z.to_nat (stop - start))) (Stream.range start (Some stop) 1) w
       = Some (Ret (consecutive start (Z.to_nat (stop - start))), w)
    /\ Stream.to_list fuel (Stream.range start (Some stop) 0) w
       = Some (Raise Stream.ValueError_range, w).
Proof.
  intros W start stop stp fuel w. split; [|split; [|split]].
  - apply list_of_count_never.
  - unfold Stream.count_. cbn [Stream.range Stream.source ret].
    rewrite count_loop_list_of, list_of_count_never. reflexivity.
  - unfold Stream.to_list. cbn [Stream.range Stream.source Z.eqb ret].
    rewrite range_list_consecutive.
    assert (Hlen : length (consecutive start (Z.to_nat (stop - start)))
                   = Z.to_nat (stop - start))
      by (unfold consecutive; now rewrite length_fmap, length_seq).
    rewrite <- Hlen at 1. apply list_of_list_iterator.
  - reflexivity.
Qed.

(** ** [HttpStream]: requests, headers *)

(** X23. [http_request(request).run()] has an error boundary around all
    of it.  For a request object that exists it calls the transport once,
    with the request's method and url, its timeout, its headers and params
    ([{}] when they are [None]) and its body as [json] or as [data]; it
    returns [Either.right] of a response that refers to the request
    object itself, or [Either.left] of the error the transport raised
    when that is an instance of [Exception]; anything else the transport
    raises is raised by the run.  The request objects are left as they
    were. *)
Theorem http_request_error_boundary :
  forall (X : Type)
         (transport : HttpStream.HttpMethod -> string -> HttpStream.Kwargs
                      -> Py X HttpStream.RawResponse)
         (req : HttpStream.ref) (rq : HttpStream.HttpRequest)
         (w : HttpStream.World X),
    HttpStream.objects w !! req = Some rq ->
    IO.run (HttpStream.http_request transport req) w
    = (let '(o, x') := transport (HttpStream.method rq) (HttpStream.url rq)
                         (request_kwargs rq) (HttpStream.outside w) in
       (match o with
        | Ret resp =>
            Ret (Either.right
                   (HttpStream.mkHttpResponse (HttpStream.raw_status_code resp)
                      (HttpStream.raw_headers resp) (HttpStream.raw_text resp) req))
        | Raise e =>
            if isinstance e "Exception" then Ret (Either.left e) else Raise e
        end,
        HttpStream.mkWorld (HttpStream.objects w) x')).
Proof.
  intros X transport req rq w Hreq.
  unfold IO.run, HttpStream.http_request, try_except, Py.bind,
    HttpStream.read_request, HttpStream.call_outside, request_kwargs.
  cbn [IO.effect]. rewrite Hreq.
  destruct (transport _ _ _ _) as [[resp|e] x']; [reflexivity|].
  destruct (isinstance e "Exception"); reflexivity.
Qed.

Lemma http_request_error_boundary_witness :
  IO.run (HttpStream.http_request
            (fun _ _ _ =>
               raise (mkRaised "ConnectionError" ["OSError"; "Exception"; "BaseException"]
                        "refused")) 1%nat)
    three_requests_world
  = (Ret (Either.left
            (mkRaised "ConnectionError" ["OSError"; "Exception"; "BaseException"]
               "refused")),
     three_requests_world)
  /\ IO.run (HttpStream.http_request interrupted_transport 1%nat) three_requests_world
     = (Raise KeyboardInterrupt, three_requests_world).
Proof.
  split.
  - apply (http_request_error_boundary unit
             (fun _ _ _ =>
                raise (mkRaised "ConnectionError" ["OSError"; "Exception"; "BaseException"]
                         "refused")) 1%nat
             (HttpStream.default_request "http://b") three_requests_world).
    reflexivity.
  - apply (http_request_error_boundary unit interrupted_transport 1%nat
             (HttpStream.default_request "http://b") three_requests_world).
    reflexivity.
Defined.

Section MoreHttpFacts.
Import HttpStream.
Context {X : Type}.

Lemma for_list_new_request (urls : list string) :
  forall (w : World X),
    exists (refs : list ref) (w' : World X),
      for_list (fun u => new_request (default_request u)) urls w = (Ret refs, w')
      /\ length refs = length urls
      /\ NoDup refs
      /\ (forall l, l ∈ refs -> objects w !! l = None)
      /\ (forall i l u, refs !! i = Some l -> urls !! i = Some u ->
                        objects w' !! l = Some (default_request u))
      /\ (forall l, l ∉ refs -> objects w' !! l = objects w !! l)
      /\ outside w' = outside w.
Proof.
  induction urls as [|u urls IH]; intros w.
  - exists [], w. repeat split; try constructor; try easy.
    all: intros l Hl; inversion Hl.
  - set (l0 := fresh (dom (objects w))).
    assert (Hfresh : objects w !! l0 = None)
      by (apply not_elem_of_dom, is_fresh).
    set (w1 := mkWorld (<[l0 := default_request u]> (objects w)) (outside w)).
    destruct (IH w1) as (refs & w' & Hrun & Hlen & Hnd & Hnew & Hget & Hold & Hout).
    assert (Hl0 : l0 ∉ refs).
    { intros Hin. apply Hnew in Hin. cbn [w1 objects] in Hin.
      now rewrite lookup_insert_eq in Hin. }
    exists (l0 :: refs), w'.
    split; [|split; [|split; [|split; [|split; [|split]]]]].
    + cbn [for_list]. unfold Py.bind, new_request at 1. fold l0. fold w1.
      now rewrite Hrun.
    + cbn. now rewrite Hlen.
    + now constructor.
    + intros l Hl. apply elem_of_cons in Hl as [->|Hl]; [exact Hfresh|].
      pose proof (Hnew l Hl) as Hnone. cbn [w1 objects] in Hnone.
      apply lookup_insert_None in Hnone. tauto.
    + intros [|i] l v Hi Hv; cbn in Hi, Hv.
      * injection Hi as <-. injection Hv as <-.
        rewrite (Hold l0 Hl0). cbn [w1 objects]. apply lookup_insert_eq.
      * eapply Hget; eassumption.
    + intros l Hl. apply not_elem_of_cons in Hl as [Hne Hl].
      rewrite (Hold l Hl). cbn [w1 objects]. now apply lookup_insert_ne.
    + exact Hout.
Qed.

Lemma with_added_headers_idemp (hs : gmap string string) (r : HttpRequest) :
  with_added_headers hs (with_added_headers hs r) = with_added_headers hs r.
Proof.
  unfold with_added_headers. simpl.
  now rewrite (assoc_L (∪)), (idemp_L (∪)).
Qed.

(** [map(add_headers)] over request objects that exist. *)
Lemma list_of_add_headers (hs : gmap string string) :
  forall (refs : list ref) (w : World X),
    (forall l, l ∈ refs -> is_Some (objects w !! l)) ->
    exists w' : World X,
      Stream.list_of (S (length refs))
        (Stream.map_object (add_headers hs) (Stream.list_iterator refs)) w
      = Some (Ret refs, w')
      /\ (forall l, objects w' !! l
                    = if decide (l ∈ refs)
                      then with_added_headers hs <$> objects w !! l
                      else objects w !! l)
      /\ outside w' = outside w.
Proof.
  induction refs as [|l0 refs IH]; intros w Hex.
  - exists w. split; [reflexivity|]. split; [|reflexivity].
    intros l. destruct (decide (l ∈ [])) as [Hin|_]; [inversion Hin | reflexivity].
  - destruct (Hex l0 ltac:(set_solver)) as [rq Hrq].
    set (w1 := mkWorld (<[l0 := with_added_headers hs rq]> (objects w)) (outside w)).
    assert (Hex1 : forall l, l ∈ refs -> is_Some (objects w1 !! l)).
    { intros l Hl. cbn [w1 objects]. destruct (decide (l0 = l)) as [->|Hne].
      - rewrite lookup_insert_eq. eauto.
      - rewrite lookup_insert_ne by exact Hne. apply Hex. set_solver. }
    destruct (IH w1 Hex1) as (w' & Hrun & Hobj & Hout).
    exists w'. split; [|split; [|exact Hout]].
    + cbn [length]. rewrite list_of_unfold, step_map_object. cbn [Stream.step ret].
      rewrite (add_headers_assigns hs l0 rq w Hrq).
      change (mkWorld _ (outside w)) with w1. now rewrite Hrun.
    + intros l. rewrite Hobj. cbn [w1 objects].
      destruct (decide (l = l0)) as [->|Hne].
      * rewrite lookup_insert_eq, Hrq.
        destruct (decide (l0 ∈ l0 :: refs)) as [_|Hnin]; [|set_solver].
        destruct (decide (l0 ∈ refs)); [|reflexivity].
        cbn. now rewrite with_added_headers_idemp.
      * rewrite lookup_insert_ne by congruence.
        destruct (decide (l ∈ refs)) as [Hin|Hnin];
          destruct (decide (l ∈ l0 :: refs)) as [Hin'|Hnin'];
          try reflexivity; set_solver.
Qed.

Lemma add_headers_twice (h1 h2 : gmap string string) (l : ref) (w : World X) :
  (b <~ add_headers h1 l; add_headers h2 b) w = add_headers (h2 ∪ h1) l w.
Proof.
  unfold Py.bind at 1.
  destruct (objects w !! l) as [rq|] eqn:Hl.
  - rewrite (add_headers_assigns h1 l rq w Hl).
    rewrite (add_headers_assigns (h2 ∪ h1) l rq w Hl).
    erewrite add_headers_assigns
      by (cbn [objects]; apply lookup_insert_eq).
    simpl. rewrite insert_insert_eq. now rewrite (assoc_L (∪)).
  - unfold add_headers, Py.bind, read_request. now rewrite Hl.
Qed.
End MoreHttpFacts.

Lemma list_of_map_object_ext {W A B} (f f' : A -> Py W B) :
  (forall a w, f a w = f' a w) ->
  forall (fuel : nat) (it : Stream.Iterator W A) w,
    Stream.list_of fuel (Stream.map_object f it) w
    = Stream.list_of fuel (Stream.map_object f' it) w.
Proof.
  intros Hext. induction fuel as [|fuel IH]; intros it w; [reflexivity|].
  rewrite !list_of_unfold, !step_map_object.
  destruct (Stream.step it w) as [[[a it'|it'|]|e] w1]; try reflexivity.
  - rewrite Hext. destruct (f' a w1) as [[b|e] w2]; [|reflexivity].
    now rewrite IH.
  - apply IH.
Qed.

(** X24. [HttpStream.from_urls(urls)] creates one request object per
    url when it is called: the objects are new and distinct, each a [GET]
    of its url without headers, params or body and with the timeout [30];
    the objects that existed are untouched and nothing else happens.  The
    stream hands out these objects in the order of the urls. *)
Theorem from_urls_creates_requests :
  forall (X : Type) (urls : list string) (w : HttpStream.World X),
    exists (refs : list HttpStream.ref) (w' : HttpStream.World X),
      HttpStream.from_urls urls w
      = (Ret (HttpStream.mkHttpStream (Stream.from_iterable refs)), w')
      /\ length refs = length urls
      /\ NoDup refs
      /\ (forall l, l ∈ refs -> HttpStream.objects w !! l = None)
      /\ (forall i l u, refs !! i = Some l -> urls !! i = Some u ->
            HttpStream.objects w' !! l
            = Some (HttpStream.mkHttpRequest u HttpStream.GET None None None 30))
      /\ (forall l, l ∉ refs -> HttpStream.objects w' !! l = HttpStream.objects w !! l)
      /\ HttpStream.outside w' = HttpStream.outside w
      /\ Stream.to_list (S (length refs))
           (Stream.from_iterable refs) w' = Some (Ret refs, w').
Proof.
  intros X urls w.
  destruct (for_list_new_request urls w)
    as (refs & w' & Hrun & Hlen & Hnd & Hnew & Hget & Hold & Hout).
  exists refs, w'. unfold HttpStream.from_urls, Py.bind. rewrite Hrun.
  repeat split; try assumption.
  apply list_of_list_iterator.
Qed.

(** X25. Traversing [s.with_headers(headers)], for a stream [s] over
    request objects that exist, hands out those same objects, in order,
    and has added [headers] to each: a key of [headers] has its new value,
    any other key the value it had.  A request handed out several times
    ends up the same.  Objects that are not in the stream, and the world
    outside, are untouched. *)
Theorem with_headers_adds_headers :
  forall (X : Type) (refs : list HttpStream.ref) (hs : gmap string string)
         (w : HttpStream.World X),
    (forall l, l ∈ refs -> is_Some (HttpStream.objects w !! l)) ->
    exists w' : HttpStream.World X,
      Stream.to_list (S (length refs))
        (HttpStream.requests
           (HttpStream.with_headers
              (HttpStream.mkHttpStream (Stream.from_iterable refs)) hs)) w
      = Some (Ret refs, w')
      /\ (forall l rq, l ∈ refs -> HttpStream.objects w !! l = Some rq ->
            HttpStream.objects w' !! l = Some (with_added_headers hs rq))
      /\ (forall l, l ∉ refs -> HttpStream.objects w' !! l = HttpStream.objects w !! l)
      /\ HttpStream.outside w' = HttpStream.outside w
      /\ (forall rq k,
            default ∅ (HttpStream.headers (with_added_headers hs rq)) !! k
            = match hs !! k with
              | Some v => Some v
              | None => default ∅ (HttpStream.headers rq) !! k
              end).
Proof.
  intros X refs hs w Hex.
  destruct (list_of_add_headers hs refs w Hex) as (w' & Hrun & Hobj & Hout).
  exists w'. split; [exact Hrun|]. split; [|split; [|split; [exact Hout|]]].
  - intros l rq Hin Hl. rewrite Hobj, decide_True by exact Hin. now rewrite Hl.
  - intros l Hnin. rewrite Hobj, decide_False by exact Hnin. reflexivity.
  - intros rq k. unfold with_added_headers. simpl.
    rewrite lookup_union. destruct (hs !! k), (default ∅ (HttpStream.headers rq) !! k);
      reflexivity.
Qed.

Lemma with_headers_adds_headers_witness :
  exists w' : HttpStream.World unit,
    Stream.to_list 3
      (HttpStream.requests
         (HttpStream.with_headers
            (HttpStream.mkHttpStream (Stream.from_iterable [2%nat; 0%nat]))
            {[ "Accept" := "application/json" ]})) three_requests_world
    = Some (Ret [2%nat; 0%nat], w')
    /\ HttpStream.objects w' !! 1%nat = HttpStream.objects three_requests_world !! 1%nat.
Proof.
  destruct (with_headers_adds_headers unit [2%nat; 0%nat]
              {[ "Accept" := "application/json" ]} three_requests_world)
    as (w' & Hrun & _ & Hold & _).
  - intros l Hl. apply elem_of_cons in Hl as [->|Hl]; [vm_compute; eauto|].
    apply elem_of_cons in Hl as [->|Hl]; [vm_compute; eauto | inversion Hl].
  - exists w'. split; [exact Hrun|]. apply Hold.
    intros Hl. apply elem_of_cons in Hl as [?|Hl]; [discriminate|].
    apply elem_of_cons in Hl as [?|Hl]; [discriminate | inversion Hl].
Defined.

(** X26. [with_auth(token)] sets the [Authorization] header of every
    request of such a stream to ["Bearer " + token], replacing a value it
    had, and keeps the other headers. *)
Theorem with_auth_sets_bearer_token :
  forall (X : Type) (refs : list HttpStream.ref) (token : string)
         (w : HttpStream.World X),
    (forall l, l ∈ refs -> is_Some (HttpStream.objects w !! l)) ->
    exists w' : HttpStream.World X,
      Stream.to_list (S (length refs))
        (HttpStream.requests
           (HttpStream.with_auth
              (HttpStream.mkHttpStream (Stream.from_iterable refs)) token)) w
      = Some (Ret refs, w')
      /\ (forall l rq, l ∈ refs -> HttpStream.objects w !! l = Some rq ->
            exists rq' hs',
              HttpStream.objects w' !! l = Some rq'
              /\ HttpStream.headers rq' = Some hs'
              /\ hs' !! "Authorization" = Some ("Bearer " +:+ token)
              /\ (forall k, k ≠ "Authorization" ->
                    hs' !! k = default ∅ (HttpStream.headers rq) !! k)
              /\ HttpStream.url rq' = HttpStream.url rq
              /\ HttpStream.method rq' = HttpStream.method rq
              /\ HttpStream.body rq' = HttpStream.body rq).
Proof.
  intros X refs token w Hex. unfold HttpStream.with_auth.
  destruct (list_of_add_headers {[ "Authorization" := "Bearer " +:+ token ]}
              refs w Hex) as (w' & Hrun & Hobj & _).
  exists w'. split; [exact Hrun|].
  intros l rq Hin Hl. eexists _, _. split.
  { rewrite Hobj, decide_True by exact Hin. rewrite Hl. reflexivity. }
  split; [reflexivity|]. split; [|split; [|repeat split]].
  - rewrite lookup_union, lookup_singleton_eq.
    now destruct (default ∅ (HttpStream.headers rq) !! "Authorization").
  - intros k Hk. rewrite lookup_union, lookup_singleton_ne by congruence.
    now destruct (default ∅ (HttpStream.headers rq) !! k).
Qed.

Lemma with_auth_sets_bearer_token_witness :
  exists w' : HttpStream.World unit,
    Stream.to_list 2
      (HttpStream.requests
         (HttpStream.with_auth
            (HttpStream.mkHttpStream (Stream.from_iterable [1%nat])) "t0k"))
      three_requests_world
    = Some (Ret [1%nat], w').
Proof.
  destruct (with_auth_sets_bearer_token unit [1%nat] "t0k" three_requests_world)
    as (w' & Hrun & _).
  - intros l Hl. apply elem_of_cons in Hl as [->|Hl]; [vm_compute; eauto | inversion Hl].
  - exists w'. exact Hrun.
Defined.

(** X27. Two [with_headers] in a row are one: for every stream of
    requests, every budget and every world, traversing
    [s.with_headers(h1).with_headers(h2)] does what traversing
    [s.with_headers(h)] does for [h] the union of the two in which [h2]
    wins on a common key.  And [with_retry(max_attempts)] adds nothing,
    whatever [max_attempts]: traversing it is traversing [s]. *)
Theorem with_headers_twice_and_with_retry :
  forall (X : Type) (s : HttpStream.HttpStream X) (h1 h2 : gmap string string)
         (max_attempts : Z) (fuel : nat) (w : HttpStream.World X),
    Stream.to_list fuel
      (HttpStream.requests
         (HttpStream.with_headers (HttpStream.with_headers s h1) h2)) w
    = Stream.to_list fuel
        (HttpStream.requests (HttpStream.with_headers s (h2 ∪ h1))) w
    /\ Stream.to_list fuel
         (HttpStream.requests (HttpStream.with_retry s max_attempts)) w
       = Stream.to_list fuel (HttpStream.requests s) w.
Proof.
  intros X s h1 h2 max_attempts fuel w. split.
  - unfold HttpStream.with_headers, HttpStream.map_request.
    cbn [HttpStream.requests].
    unfold Stream.to_list. cbn [Stream.map Stream.source]. unfold Py.bind at 1 2 3.
    destruct (Stream.source (HttpStream.requests s) w) as [[it|e] w1];
      [|reflexivity].
    cbn [ret]. rewrite list_of_map_object_compose.
    apply list_of_map_object_ext. intros l v. apply add_headers_twice.
  - unfold HttpStream.with_retry, HttpStream.map_request.
    cbn [HttpStream.requests].
    unfold Stream.to_list. cbn [Stream.map Stream.source]. unfold Py.bind.
    destruct (Stream.source (HttpStream.requests s) w) as [[it|e] w1];
      [|reflexivity].
    cbn [ret]. rewrite (list_of_map_object_ret (fun r => r)).
    destruct (Stream.list_of fuel it w1) as [[[l|e] w2]|];
      cbn [on_result]; [|reflexivity|reflexivity].
    now rewrite list_fmap_id.
Qed.

(** ** utils/operators.py: composition and memoization *)

Lemma reduce_app {W A B} (function : B -> A -> Py W B) (xs ys : list A) :
  forall (initializer : B) (w : W),
    Operators.reduce function (xs ++ ys) initializer w
    = (acc <~ Operators.reduce function xs initializer;
       Operators.reduce function ys acc) w.
Proof.
  induction xs as [|x xs IH]; intros initializer w; [reflexivity|].
  cbn [app Operators.reduce]. unfold Py.bind.
  destruct (function initializer x w) as [[acc|e] w1]; [|reflexivity].
  rewrite IH. reflexivity.
Qed.

(** X28. [compose] and [pipe] are each other's mirror and pipelines
    concatenate: [compose(f1, ..., fn)] is [pipe(fn, ..., f1)]; piping two
    lists of functions one after the other is piping the first and then
    the second on its result, the second list not being run when the
    first raises; with no function at all both return their argument. *)
Theorem compose_pipe_mirror :
  forall (W A : Type) (fs gs : list (A -> Py W A)) (x : A) (w : W),
    Operators.compose fs x w = Operators.pipe (reverse fs) x w
    /\ Operators.pipe (fs ++ gs) x w
       = (y <~ Operators.pipe fs x; Operators.pipe gs y) w
    /\ Operators.compose (fs ++ gs) x w
       = (y <~ Operators.compose gs x; Operators.compose fs y) w
    /\ Operators.compose [] x w = (Ret x, w)
    /\ Operators.pipe [] x w = (Ret x, w).
Proof.
  intros W A fs gs x w. unfold Operators.compose, Operators.pipe.
  repeat split.
  - apply reduce_app.
  - rewrite reverse_app. apply reduce_app.
Qed.


